(** * nagle: a write-coalescing wrapper over an io.ReadWriteCloser

    Shallow embedding of [nagle.go] (package [nagle]) and of the mock stream
    of [nagle_test.go], followed by the properties of the buffering and
    close protocol.

    Conventions of the embedding.
    - A Go [int] is a [Z]; the lengths that occur are far below 2^63, so no
      wrap-around arises and none is written.
    - A [[]byte] is a [list byte].
    - A Go [error] value is an [option error], [None] being [nil].
    - [sync.Mutex]: [Write], [Close] and the body of [handleFlush] hold the
      mutex from their first to their last statement, so each of them is one
      atomic transition of the wrapper; [Read] touches the stream only.
    - A panic is an explicit outcome that keeps the state the panic left
      behind. *)

From Stdlib.Strings Require Import Byte String.
From Stdlib Require Import List ZArith Lia Bool.
Import ListNotations.
Open Scope Z_scope.

Set Implicit Arguments.

(** ** Errors and outcomes *)

(** The error values that occur: [io.ErrClosedPipe], [io.ErrShortWrite],
    [io.EOF], and any other error of the underlying stream. *)
Inductive error : Type :=
| ErrClosedPipe
| ErrShortWrite
| EOF
| StreamError (code : nat).

(** What a call does: it returns a value, or panics; both leave a state. *)
Inductive outcome (St A : Type) : Type :=
| Returns (st : St) (a : A)
| Panics (st : St).

Arguments Returns {St A} st a.
Arguments Panics {St A} st.

Definition final {St A : Type} (o : outcome St A) : St :=
  match o with
  | Returns st _ => st
  | Panics st => st
  end.

(** ** The underlying stream: io.ReadWriteCloser *)

(** [rwc_Read s n] is [Read(p)] with [len(p) = n]: it gives the bytes stored
    in [p[:k]] and the error. [rwc_Write s p] gives the count and the error.
    io.Writer promises a count between 0 and [len(p)]; the count is a [nat],
    and a count above [len(p)] is kept possible, since bytes.Buffer checks
    for it. A negative count, which Go's [int] allows and io.Writer
    forbids, is not a stream of this class: bytes.Buffer does not check for
    it and would move its read offset back. What is proved here is proved
    of streams whose count is never negative; [writer_contract] below
    names the whole promise where a property depends on it. *)
Class ReadWriteCloser (Stream : Type) : Type := {
  rwc_Read : Stream -> nat -> Stream * (list byte * option error);
  rwc_Write : Stream -> list byte -> Stream * (nat * option error);
  rwc_Close : Stream -> Stream * option error
}.

(** One call received by the underlying stream, with what it answered. *)
Inductive Call : Type :=
| CallRead (n : nat) (got : list byte) (e : option error)
| CallWrite (p : list byte) (n : nat) (e : option error)
| CallClose (e : option error).

(** A stream together with the record of the calls made on it (oldest
    first). The record is an observer: the answers are those of [conn]. *)
Record Traced (Stream : Type) : Type := mkTraced {
  conn : Stream;
  calls : list Call
}.

#[export] Instance Traced_rwc (Stream : Type) `{ReadWriteCloser Stream}
  : ReadWriteCloser (Traced Stream) := {
  rwc_Read t n :=
    let '(s', (got, e)) := rwc_Read (conn t) n in
    (mkTraced s' (calls t ++ [CallRead n got e]), (got, e));
  rwc_Write t p :=
    let '(s', (n, e)) := rwc_Write (conn t) p in
    (mkTraced s' (calls t ++ [CallWrite p n e]), (n, e));
  rwc_Close t :=
    let '(s', e) := rwc_Close (conn t) in
    (mkTraced s' (calls t ++ [CallClose e]), e)
}.

Definition trace {Stream : Type} (s : Stream) : Traced Stream := mkTraced s [].

(** The bytes the stream accepted, in order: of each Write call, the first
    [n] bytes of its argument. *)
Fixpoint received (cs : list Call) : list byte :=
  match cs with
  | [] => []
  | CallWrite p n _ :: cs' => firstn n p ++ received cs'
  | _ :: cs' => received cs'
  end.

(** Whether the stream's Close was called. *)
Fixpoint close_called (cs : list Call) : bool :=
  match cs with
  | [] => false
  | CallClose _ :: _ => true
  | _ :: cs' => close_called cs'
  end.

(** ** bytes.Buffer (Go standard library), as its unread bytes *)

Definition Buffer : Type := list byte.

(** [Buffer.Len]. *)
Definition Len (b : Buffer) : Z := Z.of_nat (length b).

(** [Buffer.Write(p)]: appends, returns [(len(p), nil)]. *)
Definition Buffer_Write (b : Buffer) (p : list byte) : Buffer := b ++ p.

(** [Buffer.WriteTo(w)]: when the buffer is not empty, one [w.Write] of all
    the unread bytes; a count [m] above their number panics; otherwise [m]
    bytes are consumed; an error of [w] is returned; a short count without
    error is [io.ErrShortWrite]; else the buffer is reset. *)
Definition WriteTo {Stream : Type} `{ReadWriteCloser Stream}
  (b : Buffer) (w : Stream)
  : outcome (Buffer * Stream) (Z * option error) :=
  if 0 <? Len b then
    let '(w', (m, e)) := rwc_Write w b in
    if (length b <? m)%nat then Panics (b, w')
    else
      let b' := skipn m b in
      match e with
      | Some err => Returns (b', w') (Z.of_nat m, Some err)
      | None =>
          if (m =? length b)%nat
          then Returns ([], w') (Z.of_nat m, None)
          else Returns (b', w') (Z.of_nat m, Some ErrShortWrite)
      end
  else Returns ([], w) (0, None).

(** ** time.Timer *)

(** [armed] holds the duration of a pending arming; [fired] says that a
    value waits in the channel [C] (capacity one). *)
Record Timer : Type := mkTimer {
  armed : option Z;
  fired : bool
}.

Definition NewTimer (d : Z) : Timer := mkTimer (Some d) false.

(** [t.Stop()]: true when the call stops a pending arming. *)
Definition Stop (t : Timer) : Timer * bool :=
  match armed t with
  | Some _ => (mkTimer None (fired t), true)
  | None => (t, false)
  end.

(** [select { case <-t.C: default: }]. *)
Definition drain (t : Timer) : Timer := mkTimer (armed t) false.

Definition Reset (t : Timer) (d : Z) : Timer := mkTimer (Some d) (fired t).

(** The runtime fires an armed timer: the arming is used up and a value is
    sent on [C]. *)
Definition expire (t : Timer) : option Timer :=
  match armed t with
  | Some _ => Some (mkTimer None true)
  | None => None
  end.

(** [<-t.C]: possible when a value waits. *)
Definition receive (t : Timer) : option Timer :=
  if fired t then Some (mkTimer (armed t) false) else None.

(** ** NagleWrapper *)

Section Wrapper.

Context {Stream : Type} `{ReadWriteCloser Stream}.

Record NagleWrapper : Type := mkNagleWrapper {
  rwc : Stream;
  buffer : Buffer;
  bufferSize : Z;
  flushTimeout : Z;
  timer : Timer;
  closed : bool
}.

Definition set_rwc (nw : NagleWrapper) (s : Stream) : NagleWrapper :=
  mkNagleWrapper s (buffer nw) (bufferSize nw) (flushTimeout nw)
    (timer nw) (closed nw).

Definition set_buffer (nw : NagleWrapper) (b : Buffer) : NagleWrapper :=
  mkNagleWrapper (rwc nw) b (bufferSize nw) (flushTimeout nw)
    (timer nw) (closed nw).

Definition set_timer (nw : NagleWrapper) (t : Timer) : NagleWrapper :=
  mkNagleWrapper (rwc nw) (buffer nw) (bufferSize nw) (flushTimeout nw)
    t (closed nw).

Definition set_closed (nw : NagleWrapper) (c : bool) : NagleWrapper :=
  mkNagleWrapper (rwc nw) (buffer nw) (bufferSize nw) (flushTimeout nw)
    (timer nw) c.

(** [NewNagleWrapper]: no argument is checked; the background task it
    starts is [handleFlush] below. *)
Definition NewNagleWrapper (s : Stream) (bufferSize flushTimeout : Z)
  : NagleWrapper :=
  mkNagleWrapper s [] bufferSize flushTimeout (NewTimer flushTimeout) false.

(** [flushLocked]. *)
Definition flushLocked (nw : NagleWrapper)
  : outcome NagleWrapper (Z * option error) :=
  if Len (buffer nw) =? 0 then Returns nw (0, None)
  else
    match WriteTo (buffer nw) (rwc nw) with
    | Panics (b, s) => Panics (set_rwc (set_buffer nw b) s)
    | Returns (b, s) (n, Some err) =>
        Returns (set_rwc (set_buffer nw b) s) (n, Some err)
    | Returns (b, s) (n, None) =>
        Returns (set_rwc (set_buffer nw b) s) (n, None)
    end.

(** [Write]. *)
Definition Write (nw : NagleWrapper) (data : list byte)
  : outcome NagleWrapper (Z * option error) :=
  if closed nw then Returns nw (0, Some ErrClosedPipe)
  else
    let nw1 := set_buffer nw (Buffer_Write (buffer nw) data) in
    if bufferSize nw1 <=? Len (buffer nw1) then flushLocked nw1
    else
      let '(t1, stopped) := Stop (timer nw1) in
      let t2 := if stopped then drain t1 else t1 in
      let t3 := Reset t2 (flushTimeout nw1) in
      Returns (set_timer nw1 t3) (Z.of_nat (length data), None).

(** [Read]: the stream's own Read, whatever [closed] is. *)
Definition Read (nw : NagleWrapper) (n : nat)
  : NagleWrapper * (list byte * option error) :=
  let '(s', r) := rwc_Read (rwc nw) n in (set_rwc nw s', r).

(** [Close]. *)
Definition Close (nw : NagleWrapper) : outcome NagleWrapper (option error) :=
  if closed nw then Returns nw (Some ErrClosedPipe)
  else
    match flushLocked nw with
    | Panics nw' => Panics nw'
    | Returns nw' (_, Some err) => Returns nw' (Some err)
    | Returns nw' (_, None) =>
        let nw2 := set_closed nw' true in
        let '(s', e) := rwc_Close (rwc nw2) in
        Returns (set_rwc nw2 s') e
    end.

(** [handleFlush]: one turn of its loop from [nw.mutex.Lock()] on, the
    receive from [nw.timer.C] being the event [EvWake] below; [true] when
    the loop goes on, [false] on [return]. The result of the flush is
    dropped, as in the source. *)
Definition handleFlush_body (nw : NagleWrapper) : outcome NagleWrapper bool :=
  if closed nw then Returns nw false
  else if 0 <? Len (buffer nw) then
    match flushLocked nw with
    | Panics nw' => Panics nw'
    | Returns nw' _ => Returns nw' true
    end
  else Returns nw true.

(** ** The wrapper with its background task *)

(** Where the handleFlush goroutine stands. *)
Inductive task_state : Type :=
| Parked    (* blocked on [<-nw.timer.C] *)
| Woken     (* has received from the channel, waits for the mutex *)
| Gone.     (* has returned, or has panicked *)

Record System : Type := mkSystem {
  wrapper : NagleWrapper;
  task : task_state
}.

Inductive event : Type :=
| EvWrite (data : list byte)
| EvRead (n : nat)
| EvClose
| EvExpire          (* the runtime fires the timer *)
| EvWake            (* handleFlush receives from timer.C *)
| EvHandleFlush.    (* handleFlush takes the mutex and runs its turn *)

Inductive response : Type :=
| RWrite (n : Z) (e : option error)
| RRead (got : list byte) (e : option error)
| RClose (e : option error)
| RNone
| RPanic.

Definition start (s : Stream) (bufferSize flushTimeout : Z) : System :=
  mkSystem (NewNagleWrapper s bufferSize flushTimeout) Parked.

(** One transition; [None] when the event cannot happen in that state. A
    panic is recorded and the state it left is kept, as for a caller that
    recovers. *)
Definition step (sys : System) (ev : event) : option (System * response) :=
  let nw := wrapper sys in
  match ev with
  | EvWrite data =>
      match Write nw data with
      | Returns nw' (n, e) => Some (mkSystem nw' (task sys), RWrite n e)
      | Panics nw' => Some (mkSystem nw' (task sys), RPanic)
      end
  | EvRead n =>
      let '(nw', (got, e)) := Read nw n in
      Some (mkSystem nw' (task sys), RRead got e)
  | EvClose =>
      match Close nw with
      | Returns nw' e => Some (mkSystem nw' (task sys), RClose e)
      | Panics nw' => Some (mkSystem nw' (task sys), RPanic)
      end
  | EvExpire =>
      match expire (timer nw) with
      | Some t => Some (mkSystem (set_timer nw t) (task sys), RNone)
      | None => None
      end
  | EvWake =>
      match task sys, receive (timer nw) with
      | Parked, Some t => Some (mkSystem (set_timer nw t) Woken, RNone)
      | _, _ => None
      end
  | EvHandleFlush =>
      match task sys with
      | Woken =>
          match handleFlush_body nw with
          | Returns nw' true => Some (mkSystem nw' Parked, RNone)
          | Returns nw' false => Some (mkSystem nw' Gone, RNone)
          | Panics nw' => Some (mkSystem nw' Gone, RPanic)
          end
      | _ => None
      end
  end.

(** A history: the events that happened, each with its response. *)
Fixpoint run (sys : System) (evs : list event)
  : option (System * list response) :=
  match evs with
  | [] => Some (sys, [])
  | ev :: evs' =>
      match step sys ev with
      | Some (sys', r) =>
          match run sys' evs' with
          | Some (sys'', rs) => Some (sys'', r :: rs)
          | None => None
          end
      | None => None
      end
  end.

(** The states a wrapper can be in between two operations. *)
Inductive reachable : System -> Prop :=
| reachable_start s B T : reachable (start s B T)
| reachable_step sys ev sys' r :
    reachable sys -> step sys ev = Some (sys', r) -> reachable sys'.

(** A Write that did not return a nil error. *)
Definition write_failed (ev : event) (r : response) : bool :=
  match ev, r with
  | EvWrite _, RWrite _ None => false
  | EvWrite _, _ => true
  | _, _ => false
  end.

(** The states reached by histories in which every Write returned nil. *)
Inductive reachable_clean : System -> Prop :=
| clean_start s B T : reachable_clean (start s B T)
| clean_step sys ev sys' r :
    reachable_clean sys -> step sys ev = Some (sys', r) ->
    write_failed ev r = false -> reachable_clean sys'.

(** A run of Write calls with nothing in between. *)
Fixpoint Writes (nw : NagleWrapper) (ds : list (list byte))
  : outcome NagleWrapper (list (Z * option error)) :=
  match ds with
  | [] => Returns nw []
  | d :: ds' =>
      match Write nw d with
      | Panics nw' => Panics nw'
      | Returns nw' r =>
          match Writes nw' ds' with
          | Panics nw'' => Panics nw''
          | Returns nw'' rs => Returns nw'' (r :: rs)
          end
      end
  end.

End Wrapper.

Arguments NagleWrapper Stream : clear implicits.
Arguments System Stream : clear implicits.

(** ** The mock stream of nagle_test.go *)

Record MockReadWriteCloser : Type := mkMock {
  mock_buffer : list byte;
  mock_closed : bool
}.

(** [bytes.Buffer.Read(p)] with [len(p) = n]. *)
Definition Buffer_Read (b : Buffer) (n : nat)
  : Buffer * (list byte * option error) :=
  match b with
  | [] => if (n =? 0)%nat then ([], ([], None)) else ([], ([], Some EOF))
  | _ => (skipn n b, (firstn n b, None))
  end.

#[export] Instance Mock_rwc : ReadWriteCloser MockReadWriteCloser := {
  rwc_Write m p :=
    if mock_closed m then (m, (0%nat, Some ErrClosedPipe))
    else (mkMock (mock_buffer m ++ p) (mock_closed m), (length p, None));
  rwc_Read m n :=
    if mock_closed m then (m, ([], Some ErrClosedPipe))
    else
      let '(b, r) := Buffer_Read (mock_buffer m) n in
      (mkMock b (mock_closed m), r);
  rwc_Close m :=
    if mock_closed m then (m, Some ErrClosedPipe)
    else (mkMock (mock_buffer m) true, None)
}.

Definition mock0 : MockReadWriteCloser := mkMock [] false.

(** A stream that accepts one byte of every Write and then fails: used to
    exercise partial writes. *)
Record Choked : Type := mkChoked { choked_got : list byte }.

#[export] Instance Choked_rwc : ReadWriteCloser Choked := {
  rwc_Write c p := (mkChoked (choked_got c ++ firstn 1 p),
                    (Nat.min 1 (length p), Some (StreamError 1)));
  rwc_Read c n := (c, ([], Some EOF));
  rwc_Close c := (c, None)
}.

(** A stream that loops back what is written to it and whose Close ends
    nothing: a bytes.Buffer with a Close that returns nil. Reads go on
    after Close. *)
Record Loopback : Type := mkLoopback { loop_bytes : list byte }.

#[export] Instance Loopback_rwc : ReadWriteCloser Loopback := {
  rwc_Write l p := (mkLoopback (loop_bytes l ++ p), (length p, None));
  rwc_Read l n :=
    let '(b, r) := Buffer_Read (loop_bytes l) n in (mkLoopback b, r);
  rwc_Close l := (l, None)
}.

Definition bytes (s : string) : list byte := list_byte_of_string s.

Definition total (ds : list (list byte)) : Z := Len (concat ds).

(** ** What the protocol expects of the stream after its Close *)

(** The stream rejects reads once its Close has returned nil: [is_closed]
    holds from then on and every Read fails with [cerr], the closed-error
    of the stream. The mock of the tests is such a stream. *)
Record rejects_after_close {Stream : Type} `{ReadWriteCloser Stream}
  (is_closed : Stream -> Prop) (cerr : error) : Prop := {
  close_closes :
    forall s s', rwc_Close s = (s', None) -> is_closed s';
  read_rejected :
    forall s n, is_closed s ->
      exists s' got, rwc_Read s n = (s', (got, Some cerr)) /\ is_closed s'
}.

(** The answer of a closed wrapper to an event: io.ErrClosedPipe with a
    count of zero for Write, io.ErrClosedPipe for Close, the stream's
    closed-error [cerr] for Read. *)
Definition closed_response (cerr : error) (ev : event) (r : response)
  : Prop :=
  match ev with
  | EvWrite _ => r = RWrite 0 (Some ErrClosedPipe)
  | EvClose => r = RClose (Some ErrClosedPipe)
  | EvRead _ => exists got, r = RRead got (Some cerr)
  | EvExpire | EvWake | EvHandleFlush => r = RNone
  end.

(** The state of a wrapper whose Close has returned nil, over a stream
    that knows when it is closed. *)
Definition shut {Stream : Type} (is_closed : Stream -> Prop)
  (nw : NagleWrapper (Traced Stream)) : Prop :=
  closed nw = true /\ buffer nw = [] /\ is_closed (conn (rwc nw)).

(** The answer of a closed wrapper to an event, over any stream:
    io.ErrClosedPipe with a count of zero for Write, io.ErrClosedPipe for
    Close, and for Read whatever the stream's Read gives. *)
Definition closed_answer (ev : event) (r : response) : Prop :=
  match ev with
  | EvWrite _ => r = RWrite 0 (Some ErrClosedPipe)
  | EvClose => r = RClose (Some ErrClosedPipe)
  | EvRead _ => exists got e, r = RRead got e
  | EvExpire | EvWake | EvHandleFlush => r = RNone
  end.

(** The Read calls that go with the Read events of a history and their
    responses. *)
Fixpoint read_calls (evs : list event) (rs : list response) : list Call :=
  match evs, rs with
  | EvRead n :: evs', RRead got e :: rs' =>
      CallRead n got e :: read_calls evs' rs'
  | _ :: evs', _ :: rs' => read_calls evs' rs'
  | _, _ => []
  end.

(** The operations of the caller, as opposed to the timer and the
    background task. *)
Definition caller (ev : event) : bool :=
  match ev with
  | EvWrite _ | EvRead _ | EvClose => true
  | EvExpire | EvWake | EvHandleFlush => false
  end.

(** No Write of the history failed. *)
Fixpoint writes_ok (evs : list event) (rs : list response) : bool :=
  match evs, rs with
  | ev :: evs', r :: rs' => negb (write_failed ev r) && writes_ok evs' rs'
  | _, _ => true
  end.

(** The invariants of the buffer. *)
Definition below_threshold {Stream : Type} (nw : NagleWrapper Stream)
  : Prop :=
  Len (buffer nw) < bufferSize nw.

Definition closed_is_empty {Stream : Type} (nw : NagleWrapper Stream)
  : Prop :=
  closed nw = true -> buffer nw = [].

(** ** Bytes through a history *)

(** The bytes a transition takes in: those of a Write on an open wrapper. *)
Definition accepts {Stream : Type} (sys : System Stream) (ev : event)
  : list byte :=
  match ev with
  | EvWrite data => if closed (wrapper sys) then [] else data
  | _ => []
  end.

(** The bytes taken in along a history, in order. *)
Fixpoint accepted {Stream : Type} `{ReadWriteCloser Stream}
  (sys : System Stream) (evs : list event) : list byte :=
  match evs with
  | [] => []
  | ev :: evs' =>
      match step sys ev with
      | Some (sys', _) => accepts sys ev ++ accepted sys' evs'
      | None => []
      end
  end.

(** The bytes of all the Write events of a history. *)
Fixpoint written (evs : list event) : list byte :=
  match evs with
  | [] => []
  | EvWrite data :: evs' => data ++ written evs'
  | _ :: evs' => written evs'
  end.

Definition is_close (ev : event) : bool :=
  match ev with
  | EvClose => true
  | _ => false
  end.

(** The promise of io.Writer on the count [n] a Write returns:
    [0 <= n <= len(p)]. The lower bound holds of every stream of the class
    above, whose count is a [nat]; it is written out because the count of
    a Go stream is an [int], and a stream that breaks it is outside what
    is proved under this hypothesis. *)
Definition writer_contract (Stream : Type) `{ReadWriteCloser Stream}
  : Prop :=
  forall (s : Stream) (p : list byte),
    0 <= Z.of_nat (fst (snd (rwc_Write s p))) <= Len p.

Arguments writer_contract Stream {_}.

(** The upper half of that promise. *)
Definition writer_bound (Stream : Type) `{ReadWriteCloser Stream} : Prop :=
  forall (s : Stream) (p : list byte),
    (fst (snd (rwc_Write s p)) <= length p)%nat.

Arguments writer_bound Stream {_}.

(** The order of the calls on a stream: after its Close, only Reads. *)
Definition is_read (c : Call) : bool :=
  match c with
  | CallRead _ _ _ => true
  | _ => false
  end.

Fixpoint close_discipline (cs : list Call) : bool :=
  match cs with
  | [] => true
  | CallClose _ :: cs' => forallb is_read cs'
  | _ :: cs' => close_discipline cs'
  end.

(** No Write call with nothing to write. *)
Definition nonempty_write (c : Call) : bool :=
  match c with
  | CallWrite [] _ _ => false
  | _ => true
  end.

(** * Properties *)

(** ** Lists and lengths *)

Lemma Len_nil_iff (b : Buffer) : Len b = 0 <-> b = [].
Proof.
  unfold Len; split; intro E.
  - destruct b; [reflexivity | simpl in E; lia].
  - subst b; reflexivity.
Qed.

Lemma Len_app (a b : Buffer) : Len (a ++ b) = Len a + Len b.
Proof. unfold Len; rewrite length_app; lia. Qed.

Lemma Len_nonneg (b : Buffer) : 0 <= Len b.
Proof. unfold Len; lia. Qed.

Lemma Len_skipn_le (k : nat) (b : Buffer) : Len (skipn k b) <= Len b.
Proof. unfold Len; rewrite length_skipn; lia. Qed.

Lemma total_snoc (ds : list (list byte)) (d : list byte) :
  concat (ds ++ [d]) = concat ds ++ d.
Proof. rewrite concat_app; simpl; rewrite app_nil_r; reflexivity. Qed.

Lemma received_app (cs cs' : list Call) :
  received (cs ++ cs') = received cs ++ received cs'.
Proof.
  induction cs as [|c cs IH]; simpl; [reflexivity|].
  destruct c; rewrite IH; try reflexivity.
  rewrite app_assoc; reflexivity.
Qed.

Lemma close_called_app (cs cs' : list Call) :
  close_called (cs ++ cs') = close_called cs || close_called cs'.
Proof.
  induction cs as [|c cs IH]; simpl; [reflexivity|].
  destruct c; auto.
Qed.

(** ** flushLocked *)

Section Flush.

Context {Stream : Type} `{ReadWriteCloser Stream}.

Implicit Types nw : NagleWrapper Stream.

Lemma flushLocked_empty nw :
  buffer nw = [] -> flushLocked nw = Returns nw (0, None).
Proof. intro E; unfold flushLocked; rewrite E; reflexivity. Qed.

(** The whole of [flushLocked] on a non-empty buffer, by the answer of the
    stream to the one Write it makes. *)
Lemma flushLocked_nonempty nw s' m e :
  buffer nw <> [] ->
  rwc_Write (rwc nw) (buffer nw) = (s', (m, e)) ->
  flushLocked nw =
    if (length (buffer nw) <? m)%nat then Panics (set_rwc nw s')
    else
      match e with
      | Some err =>
          Returns (set_rwc (set_buffer nw (skipn m (buffer nw))) s')
            (Z.of_nat m, Some err)
      | None =>
          if (m =? length (buffer nw))%nat
          then Returns (set_rwc (set_buffer nw []) s') (Z.of_nat m, None)
          else Returns (set_rwc (set_buffer nw (skipn m (buffer nw))) s')
                 (Z.of_nat m, Some ErrShortWrite)
      end.
Proof.
  intros NE W. unfold flushLocked, WriteTo.
  assert (L : Len (buffer nw) <> 0) by (rewrite Len_nil_iff; exact NE).
  pose proof (Len_nonneg (buffer nw)) as P.
  destruct (Z.eqb_spec (Len (buffer nw)) 0) as [E|_]; [contradiction|].
  destruct (Z.ltb_spec 0 (Len (buffer nw))) as [_|G]; [|lia].
  rewrite W.
  destruct (length (buffer nw) <? m)%nat.
  - destruct nw; reflexivity.
  - destruct e as [err|]; [reflexivity|].
    destruct (m =? length (buffer nw))%nat; reflexivity.
Qed.

(** What every flush keeps, whatever the stream answers. *)
Lemma flushLocked_frame nw :
  let nw' := final (flushLocked nw) in
  closed nw' = closed nw /\ bufferSize nw' = bufferSize nw /\
  flushTimeout nw' = flushTimeout nw /\ timer nw' = timer nw /\
  Len (buffer nw') <= Len (buffer nw).
Proof.
  destruct (buffer nw) as [|x b] eqn:E.
  - rewrite (flushLocked_empty nw E); simpl; rewrite E; repeat split; lia.
  - destruct (rwc_Write (rwc nw) (buffer nw)) as [s' [m e]] eqn:W.
    assert (NE : buffer nw <> []) by (rewrite E; discriminate).
    rewrite (flushLocked_nonempty nw NE W), <- E.
    destruct (length (buffer nw) <? m)%nat; simpl; [repeat split; lia|].
    destruct e as [err|]; simpl.
    + repeat split; apply Len_skipn_le.
    + destruct (m =? length (buffer nw))%nat; simpl; repeat split.
      * apply Len_nonneg.
      * apply Len_skipn_le.
Qed.

(** A flush that returns nil has emptied the buffer. *)
Lemma flushLocked_nil_empties nw nw' n :
  flushLocked nw = Returns nw' (n, None) -> buffer nw' = [].
Proof.
  destruct (buffer nw) as [|x b] eqn:E.
  - rewrite (flushLocked_empty nw E); intro R; inversion R; subst; exact E.
  - destruct (rwc_Write (rwc nw) (buffer nw)) as [s' [m e]] eqn:W.
    assert (NE : buffer nw <> []) by (rewrite E; discriminate).
    rewrite (flushLocked_nonempty nw NE W).
    destruct (length (buffer nw) <? m)%nat; [discriminate|].
    destruct e as [err|]; [discriminate|].
    destruct (m =? length (buffer nw))%nat; [|discriminate].
    intro R; inversion R; reflexivity.
Qed.

End Flush.

(** ** Write *)

Section WriteFacts.

Context {Stream : Type} `{ReadWriteCloser Stream}.

Implicit Types nw : NagleWrapper Stream.

Lemma Write_on_closed nw data :
  closed nw = true -> Write nw data = Returns nw (0, Some ErrClosedPipe).
Proof. intro C; unfold Write; rewrite C; reflexivity. Qed.

(** Below the threshold: the bytes are appended and the timer re-armed. *)
Lemma Write_below nw data :
  closed nw = false ->
  Len (buffer nw ++ data) < bufferSize nw ->
  exists t,
    armed t = Some (flushTimeout nw) /\
    Write nw data =
      Returns (set_timer (set_buffer nw (buffer nw ++ data)) t)
        (Len data, None).
Proof.
  intros C L. unfold Write, Buffer_Write; rewrite C; simpl.
  destruct (Z.leb_spec (bufferSize nw) (Len (buffer nw ++ data))); [lia|].
  unfold Stop; simpl.
  destruct (armed (timer nw)); simpl; eexists; (split; [|reflexivity]);
    reflexivity.
Qed.

(** At or above the threshold: the result is that of the flush. *)
Lemma Write_at_threshold nw data :
  closed nw = false ->
  bufferSize nw <= Len (buffer nw ++ data) ->
  Write nw data = flushLocked (set_buffer nw (buffer nw ++ data)).
Proof.
  intros C L. unfold Write, Buffer_Write; rewrite C; simpl.
  destruct (Z.leb_spec (bufferSize nw) (Len (buffer nw ++ data)));
    [reflexivity | lia].
Qed.

(** A run of writes that stays below the threshold only fills the buffer. *)
Lemma Writes_below nw (ds : list (list byte)) :
  closed nw = false ->
  Len (buffer nw ++ concat ds) < bufferSize nw ->
  exists nw',
    Writes nw ds = Returns nw' (map (fun p => (Len p, None)) ds) /\
    rwc nw' = rwc nw /\ buffer nw' = buffer nw ++ concat ds /\
    closed nw' = false /\ bufferSize nw' = bufferSize nw.
Proof.
  revert nw; induction ds as [|d ds IH]; intros nw C L.
  - exists nw; simpl; rewrite app_nil_r; auto.
  - simpl in L. rewrite app_assoc in L.
    assert (Ld : Len (buffer nw ++ d) < bufferSize nw).
    { rewrite Len_app in L. pose proof (Len_nonneg (concat ds)). lia. }
    destruct (Write_below nw d C Ld) as (t & _ & W).
    destruct (IH (set_timer (set_buffer nw (buffer nw ++ d)) t) C L)
      as (nw' & R & Hs & Hb & Hc & Hz).
    exists nw'. simpl. rewrite W, R. simpl in *.
    rewrite Hb, <- app_assoc. auto.
Qed.

Lemma Writes_app nw (ds ds' : list (list byte)) :
  Writes nw (ds ++ ds') =
    match Writes nw ds with
    | Panics nw' => Panics nw'
    | Returns nw' rs =>
        match Writes nw' ds' with
        | Panics nw'' => Panics nw''
        | Returns nw'' rs' => Returns nw'' (rs ++ rs')
        end
    end.
Proof.
  revert nw; induction ds as [|d ds IH]; intro nw; simpl.
  - destruct (Writes nw ds'); reflexivity.
  - destruct (Write nw d) as [nw1 r|nw1]; [|reflexivity].
    rewrite IH. destruct (Writes nw1 ds) as [nw2 rs|nw2]; [|reflexivity].
    destruct (Writes nw2 ds'); reflexivity.
Qed.

End WriteFacts.

(** ** The record of calls *)

Section TracedFacts.

Context {Stream : Type} `{ReadWriteCloser Stream}.

Implicit Types nw : NagleWrapper (Traced Stream).

Lemma traced_Write (t : Traced Stream) (p : list byte) s' m e :
  rwc_Write (conn t) p = (s', (m, e)) ->
  rwc_Write t p = (mkTraced s' (calls t ++ [CallWrite p m e]), (m, e)).
Proof. intro W; simpl; rewrite W; reflexivity. Qed.

Lemma traced_Close (t : Traced Stream) s' e :
  rwc_Close (conn t) = (s', e) ->
  rwc_Close t = (mkTraced s' (calls t ++ [CallClose e]), e).
Proof. intro W; simpl; rewrite W; reflexivity. Qed.

(** The write that reaches the threshold, on a wrapper that has sent
    nothing yet, by the answer of the stream. *)
Lemma Write_at_threshold_traced nw (data : list byte) s' m e :
  closed nw = false ->
  0 < bufferSize nw <= Len (buffer nw ++ data) ->
  rwc_Write (conn (rwc nw)) (buffer nw ++ data) = (s', (m, e)) ->
  let all := buffer nw ++ data in
  let t' := mkTraced s' (calls (rwc nw) ++ [CallWrite all m e]) in
  let nw1 := set_buffer nw all in
  Write nw data =
    if (length all <? m)%nat then Panics (set_rwc nw1 t')
    else
      match e with
      | Some err =>
          Returns (set_rwc (set_buffer nw1 (skipn m all)) t')
            (Z.of_nat m, Some err)
      | None =>
          if (m =? length all)%nat
          then Returns (set_rwc (set_buffer nw1 []) t') (Z.of_nat m, None)
          else Returns (set_rwc (set_buffer nw1 (skipn m all)) t')
                 (Z.of_nat m, Some ErrShortWrite)
      end.
Proof.
  intros C [B0 B1] W all t' nw1.
  rewrite (Write_at_threshold nw data C B1).
  assert (NE : buffer nw1 <> []).
  { unfold nw1, all; cbn [buffer set_buffer]. rewrite <- Len_nil_iff. lia. }
  apply (flushLocked_nonempty nw1 NE).
  simpl buffer; simpl rwc. apply traced_Write. exact W.
Qed.

End TracedFacts.

(** * The buffering protocol *)

(** C1. On a fresh wrapper with [bufferSize = B > 0], let the writes
    [ds ++ [d]] follow each other with no timer flush in between, the
    cumulative size staying below [B] through [ds] and reaching it with
    [d]. Then (1) after every prefix of [ds] the underlying stream has
    received no call at all; (2) when all the writes return a nil error, the
    stream has received exactly one Write, of the concatenation of all the
    writes, accepted whole, so the bytes it received are that
    concatenation; (3) the writes do all return nil as soon as the stream
    accepts that concatenation. *)
Theorem threshold_write_sends_concatenation
  {Stream : Type} `{ReadWriteCloser Stream}
  (s0 : Stream) (B T : Z) (ds : list (list byte)) (d : list byte) :
  0 < B -> total ds < B -> B <= total (ds ++ [d]) ->
  let nw0 := NewNagleWrapper (trace s0) B T in
  let all := concat (ds ++ [d]) in
  (forall pre post, ds = pre ++ post ->
     exists nwj,
       Writes nw0 pre = Returns nwj (map (fun p => (Len p, None)) pre) /\
       calls (rwc nwj) = [] /\ buffer nwj = concat pre) /\
  (forall nw' rs,
     Writes nw0 (ds ++ [d]) = Returns nw' rs ->
     Forall (fun r => snd r = None) rs ->
     calls (rwc nw') = [CallWrite all (length all) None] /\
     received (calls (rwc nw')) = all /\ buffer nw' = []) /\
  (forall s1,
     rwc_Write s0 all = (s1, (length all, None)) ->
     exists nw',
       Writes nw0 (ds ++ [d]) =
         Returns nw' (map (fun p => (Len p, None)) ds ++ [(Len all, None)])).
Proof.
  intros B0 Lds Lall nw0 all.
  assert (Eall : all = concat ds ++ d) by apply total_snoc.
  unfold total in *. rewrite total_snoc in Lall.
  (* the state after the writes of [ds] *)
  destruct (Writes_below nw0 ds eq_refl Lds) as (nwk & Rk & Sk & Bk & Ck & Zk).
  simpl in Sk, Bk, Zk.
  assert (Tk : 0 < bufferSize nwk <= Len (buffer nwk ++ d)).
  { rewrite Zk, Bk. lia. }
  assert (Ek : rwc_Write (conn (rwc nwk)) (buffer nwk ++ d)
               = rwc_Write s0 all).
  { rewrite Sk, Bk, <- Eall. reflexivity. }
  split; [|split].
  - intros pre post E.
    assert (Lpre : Len (buffer nw0 ++ concat pre) < bufferSize nw0).
    { simpl. subst ds. rewrite concat_app, Len_app in Lds.
      pose proof (Len_nonneg (concat post)). lia. }
    destruct (Writes_below nw0 pre eq_refl Lpre) as (nwj & Rj & Sj & Bj & _).
    exists nwj. rewrite Rj, Sj, Bj. auto.
  - intros nw' rs R F. rewrite Writes_app, Rk in R. simpl in R.
    destruct (rwc_Write s0 all) as [s1 [m e]] eqn:W.
    rewrite (Write_at_threshold_traced nwk d Ck Tk Ek) in R.
    rewrite Bk, <- Eall, Sk in R. simpl in R.
    destruct (length all <? m)%nat; [discriminate|].
    destruct e as [err|].
    + inversion R; subst rs. apply Forall_app in F as [_ F].
      inversion F as [|? ? F1 _]; discriminate.
    + destruct (Nat.eqb_spec m (length all)) as [->|_].
      * inversion R; subst; simpl. rewrite firstn_all, app_nil_r. auto.
      * inversion R; subst rs. apply Forall_app in F as [_ F].
        inversion F as [|? ? F1 _]; discriminate.
  - intros s1 W. rewrite Writes_app, Rk. simpl. rewrite W in Ek.
    rewrite (Write_at_threshold_traced nwk d Ck Tk Ek).
    rewrite Bk, <- Eall.
    destruct (Nat.ltb_spec (length all) (length all)) as [?|_]; [lia|].
    rewrite Nat.eqb_refl. eexists; reflexivity.
Qed.

(** C1 on the first scenario of the tests, split in two writes: with
    [bufferSize = 10], "01234" then "56789" put "0123456789" on the mock. *)
Lemma threshold_write_sends_concatenation_witness :
  received
    (calls (rwc (final (Writes (NewNagleWrapper (trace mock0) 10 50)
                          [bytes "01234"; bytes "56789"]))))
  = bytes "0123456789".
Proof.
  destruct (@threshold_write_sends_concatenation _ _ mock0 10 50
              [bytes "01234"] (bytes "56789"))
    as (_ & P & _).
  - reflexivity.
  - reflexivity.
  - vm_compute; discriminate.
  - refine (proj1 (proj2 (P _ _ eq_refl _))).
    repeat constructor.
Defined.

(** C2. On an open wrapper, a Write whose bytes leave the buffer strictly
    below [bufferSize] returns [(len(data), nil)], does not touch the
    underlying stream (the stream, with the record of its calls, is the
    same afterwards), keeps the old bytes followed by [data] in the buffer,
    leaves the wrapper open and arms the timer for [flushTimeout]. *)
Theorem small_write_is_buffered
  {Stream : Type} `{ReadWriteCloser Stream}
  (nw : NagleWrapper (Traced Stream)) (data : list byte) :
  closed nw = false ->
  Len (buffer nw ++ data) < bufferSize nw ->
  exists nw',
    Write nw data = Returns nw' (Z.of_nat (length data), None) /\
    rwc nw' = rwc nw /\
    received (calls (rwc nw')) = received (calls (rwc nw)) /\
    buffer nw' = buffer nw ++ data /\
    closed nw' = false /\
    armed (timer nw') = Some (flushTimeout nw).
Proof.
  intros C L. destruct (Write_below nw data C L) as (t & A & W).
  eexists; split; [exact W|]. simpl. auto.
Qed.

(** C2 on the first write of the timeout scenario of the tests. *)
Lemma small_write_is_buffered_witness :
  exists nw',
    Write (NewNagleWrapper (trace mock0) 10 50) (bytes "01234")
      = Returns nw' (5, None) /\
    calls (rwc nw') = [] /\ buffer nw' = bytes "01234".
Proof.
  destruct (@small_write_is_buffered _ _
              (NewNagleWrapper (trace mock0) 10 50) (bytes "01234"))
    as (nw' & W & S & _ & Bf & _).
  - reflexivity.
  - reflexivity.
  - exists nw'. rewrite S, Bf. auto.
Defined.

(** C10. On a wrapper whose closed flag is set, Write returns
    [(0, io.ErrClosedPipe)] and the wrapper it leaves is the one it found:
    same buffer, same underlying stream with the same record of calls; the
    test of the flag comes before the append. *)
Theorem write_on_closed_changes_nothing
  {Stream : Type} `{ReadWriteCloser Stream}
  (nw : NagleWrapper (Traced Stream)) (data : list byte) :
  closed nw = true ->
  Write nw data = Returns nw (0, Some ErrClosedPipe) /\
  buffer (final (Write nw data)) = buffer nw /\
  rwc (final (Write nw data)) = rwc nw.
Proof.
  intro C. rewrite (Write_on_closed nw data C). auto.
Qed.

Lemma write_on_closed_changes_nothing_witness :
  let nw := set_closed (NewNagleWrapper (trace mock0) 10 50) true in
  Write nw (bytes "more data") = Returns nw (0, Some ErrClosedPipe).
Proof.
  intro nw.
  exact (proj1 (@write_on_closed_changes_nothing _ _ nw (bytes "more data")
                  eq_refl)).
Defined.

(** * Flush and Close *)

Section CloseFacts.

Context {Stream : Type} `{ReadWriteCloser Stream}.

Implicit Types nw : NagleWrapper (Traced Stream).

(** The flush of a non-empty buffer on a recorded stream. *)
Lemma flushLocked_traced nw s1 m e :
  buffer nw <> [] ->
  rwc_Write (conn (rwc nw)) (buffer nw) = (s1, (m, e)) ->
  let b := buffer nw in
  let t1 := mkTraced s1 (calls (rwc nw) ++ [CallWrite b m e]) in
  flushLocked nw =
    if (length b <? m)%nat then Panics (set_rwc nw t1)
    else
      match e with
      | Some err =>
          Returns (set_rwc (set_buffer nw (skipn m b)) t1)
            (Z.of_nat m, Some err)
      | None =>
          if (m =? length b)%nat
          then Returns (set_rwc (set_buffer nw []) t1) (Z.of_nat m, None)
          else Returns (set_rwc (set_buffer nw (skipn m b)) t1)
                 (Z.of_nat m, Some ErrShortWrite)
      end.
Proof.
  intros NE W b t1. apply (flushLocked_nonempty nw NE).
  apply traced_Write; exact W.
Qed.

Lemma Close_on_closed nw :
  closed nw = true -> Close nw = Returns nw (Some ErrClosedPipe).
Proof. intro C; unfold Close; rewrite C; reflexivity. Qed.

(** Close after a flush that failed: the error, and nothing else done. *)
Lemma Close_flush_error nw nw1 n err :
  closed nw = false ->
  flushLocked nw = Returns nw1 (n, Some err) ->
  Close nw = Returns nw1 (Some err).
Proof. intros C F; unfold Close; rewrite C, F; reflexivity. Qed.

Lemma Close_flush_panic nw nw1 :
  closed nw = false ->
  flushLocked nw = Panics nw1 ->
  Close nw = Panics nw1.
Proof. intros C F; unfold Close; rewrite C, F; reflexivity. Qed.

(** Close after a flush that returned nil: the flag, then the stream. *)
Lemma Close_flush_nil nw nw1 n s2 ec :
  closed nw = false ->
  flushLocked nw = Returns nw1 (n, None) ->
  rwc_Close (conn (rwc nw1)) = (s2, ec) ->
  Close nw =
    Returns (set_rwc (set_closed nw1 true)
               (mkTraced s2 (calls (rwc nw1) ++ [CallClose ec]))) ec.
Proof.
  intros C F K; unfold Close; rewrite C, F.
  cbn [rwc set_closed]. rewrite (traced_Close (rwc nw1) K). reflexivity.
Qed.

End CloseFacts.

(** C3. Close on an open wrapper with a non-empty buffer, [(m, e)] being
    the answer of the stream to the Write of that buffer. The first thing
    the stream receives is one Write of all the buffered bytes. The stream's
    Close is called only after that Write, and only when the flush returned
    nil, that is when the Write took every byte without error; the stream
    has then received the whole buffer, and the wrapper is closed and empty.
    Close returns nil only when the flush returned nil and the stream's
    Close, which was called, returned nil. And Close does return whenever
    the count [m] is within the bytes offered, as io.Writer promises. *)
Theorem close_flushes_before_closing
  {Stream : Type} `{ReadWriteCloser Stream}
  (nw : NagleWrapper (Traced Stream)) (s1 : Stream) (m : nat)
  (e : option error) :
  closed nw = false ->
  buffer nw <> [] ->
  rwc_Write (conn (rwc nw)) (buffer nw) = (s1, (m, e)) ->
  exists rest,
    calls (rwc (final (Close nw)))
      = calls (rwc nw) ++ CallWrite (buffer nw) m e :: rest /\
    (close_called rest = true ->
       m = length (buffer nw) /\ e = None /\
       (exists nw1 n, flushLocked nw = Returns nw1 (n, None)) /\
       received (calls (rwc (final (Close nw))))
         = received (calls (rwc nw)) ++ buffer nw /\
       closed (final (Close nw)) = true /\
       buffer (final (Close nw)) = []) /\
    (forall nw',
       Close nw = Returns nw' None ->
       (exists nw1 n, flushLocked nw = Returns nw1 (n, None)) /\
       rest = [CallClose None]) /\
    ((m <= length (buffer nw))%nat ->
     exists nw' r,
       Close nw = Returns nw' r /\ (rest = [] \/ rest = [CallClose r])).
Proof.
  intros C NE W.
  pose proof (flushLocked_traced nw NE W) as F. cbv zeta in F.
  destruct (Nat.ltb_spec (length (buffer nw)) m) as [G|_].
  - (* a count above the bytes offered: bytes.Buffer panics *)
    exists []. rewrite (Close_flush_panic nw C F).
    cbn [final rwc set_rwc calls close_called].
    repeat split; try discriminate. lia.
  - destruct e as [err|].
    + (* the stream reported an error *)
      exists []. rewrite (Close_flush_error nw C F).
      cbn [final rwc set_rwc calls close_called].
      repeat split; try discriminate. eauto.
    + destruct (Nat.eqb_spec m (length (buffer nw))) as [E|NEq].
      * (* every byte accepted: the flag is set and the stream closed *)
        destruct (rwc_Close s1) as [s2 ec] eqn:K.
        exists [CallClose ec].
        rewrite (Close_flush_nil nw (s2 := s2) (ec := ec) C F K).
        cbn [final rwc set_rwc set_closed set_buffer calls closed buffer].
        rewrite <- app_assoc. cbn [app].
        repeat split; eauto.
        -- rewrite received_app; cbn [received]. subst m.
           rewrite firstn_all, !app_nil_r. reflexivity.
        -- congruence.
      * (* a short count without error: io.ErrShortWrite *)
        exists []. rewrite (Close_flush_error nw C F).
        cbn [final rwc set_rwc calls close_called].
        repeat split; try discriminate. eauto.
Qed.

(** C3 on the third scenario of the tests: "01234" written, then Close. *)
Lemma close_flushes_before_closing_witness :
  exists nw',
    Close (final (Write (NewNagleWrapper (trace mock0) 10 50)
                    (bytes "01234")))
      = Returns nw' None /\
    calls (rwc nw') = [CallWrite (bytes "01234") 5 None; CallClose None].
Proof.
  set (nw := final (Write (NewNagleWrapper (trace mock0) 10 50)
                      (bytes "01234"))).
  destruct (@close_flushes_before_closing _ _ nw
              (mkMock (bytes "01234") false) 5%nat None)
    as (rest & Ca & _ & Nil & _).
  - reflexivity.
  - discriminate.
  - reflexivity.
  - exists (final (Close nw)).
    assert (Cl : Close nw = Returns (final (Close nw)) None) by reflexivity.
    destruct (Nil _ Cl) as [_ ->]. split; [exact Cl | exact Ca].
Defined.

(** C5. A flush in which the stream's Write accepts [m] bytes, [m] smaller
    than the number buffered: the flush returns (it does not panic) with the
    count [m] and an error, the stream's own or io.ErrShortWrite; the buffer
    that stays is the old one without its first [m] bytes, so accepted and
    kept bytes together are the old buffer, in order; the bytes the stream
    received grow by exactly those [m]; the closed flag is untouched; and
    the next flush offers the stream exactly the bytes that stayed. *)
Theorem partial_write_keeps_remainder
  {Stream : Type} `{ReadWriteCloser Stream}
  (nw : NagleWrapper (Traced Stream)) (s1 : Stream) (m : nat)
  (e : option error) :
  rwc_Write (conn (rwc nw)) (buffer nw) = (s1, (m, e)) ->
  (m < length (buffer nw))%nat ->
  exists nw',
    flushLocked nw =
      Returns nw' (Z.of_nat m,
                   Some (match e with Some err => err | None => ErrShortWrite
                         end)) /\
    buffer nw' = skipn m (buffer nw) /\
    firstn m (buffer nw) ++ buffer nw' = buffer nw /\
    received (calls (rwc nw')) =
      received (calls (rwc nw)) ++ firstn m (buffer nw) /\
    closed nw' = closed nw /\
    buffer nw' <> [] /\
    (forall s2 m2 e2,
       rwc_Write s1 (buffer nw') = (s2, (m2, e2)) ->
       calls (rwc (final (flushLocked nw'))) =
         calls (rwc nw') ++ [CallWrite (skipn m (buffer nw)) m2 e2]).
Proof.
  intros W M.
  assert (NE : buffer nw <> []).
  { intro E; rewrite E in M; simpl in M; lia. }
  pose proof (flushLocked_traced nw NE W) as F. cbv zeta in F.
  destruct (Nat.ltb_spec (length (buffer nw)) m) as [?|_]; [lia|].
  destruct (Nat.eqb_spec m (length (buffer nw))) as [?|_]; [lia|].
  assert (NE' : skipn m (buffer nw) <> []).
  { intro E. apply (f_equal (@length byte)) in E.
    rewrite length_skipn in E; simpl in E; lia. }
  exists (set_rwc (set_buffer nw (skipn m (buffer nw)))
            (mkTraced s1 (calls (rwc nw) ++ [CallWrite (buffer nw) m e]))).
  cbn [rwc set_rwc set_buffer buffer closed calls].
  repeat split; auto.
  - destruct e; exact F.
  - apply firstn_skipn.
  - rewrite received_app; cbn [received]. rewrite app_nil_r; reflexivity.
  - intros s2 m2 e2 W2.
    match goal with |- context [flushLocked ?x] => set (nw1 := x) end.
    assert (N1 : buffer nw1 <> []) by exact NE'.
    rewrite (flushLocked_traced nw1 N1 W2). cbv zeta.
    destruct (length (buffer nw1) <? m2)%nat; [reflexivity|].
    destruct e2; [reflexivity|].
    destruct (m2 =? length (buffer nw1))%nat; reflexivity.
Qed.

(** C5 on a stream that takes one byte of six and fails. *)
Lemma partial_write_keeps_remainder_witness :
  buffer (final (flushLocked
                   (set_buffer (NewNagleWrapper (trace (mkChoked [])) 10 50)
                      (bytes "abcdef"))))
  = bytes "bcdef".
Proof.
  destruct (@partial_write_keeps_remainder _ _
              (set_buffer (NewNagleWrapper (trace (mkChoked [])) 10 50)
                 (bytes "abcdef"))
              (mkChoked (bytes "a")) 1%nat (Some (StreamError 1)))
    as (nw' & F & Bf & _).
  - reflexivity.
  - vm_compute. repeat constructor.
  - rewrite F. exact Bf.
Defined.

(** C6. On an open wrapper, when the final flush of Close returns an
    error: Close returns that error; the state it leaves is the one the
    flush left, with the closed flag still false; the stream's Close has not
    been called (the stream received the one Write of the flush and nothing
    more); and a second Close does not answer io.ErrClosedPipe but flushes
    again: when that flush returns nil it sets the flag and closes the
    stream. *)
Theorem close_flush_error_leaves_open
  {Stream : Type} `{ReadWriteCloser Stream}
  (nw nw1 : NagleWrapper (Traced Stream)) (n : Z) (err : error) :
  closed nw = false ->
  flushLocked nw = Returns nw1 (n, Some err) ->
  Close nw = Returns nw1 (Some err) /\
  closed nw1 = false /\
  (exists m e,
     calls (rwc nw1) = calls (rwc nw) ++ [CallWrite (buffer nw) m e]) /\
  (forall nw2 n2 err2,
     flushLocked nw1 = Returns nw2 (n2, Some err2) ->
     Close nw1 = Returns nw2 (Some err2)) /\
  (forall nw2 n2,
     flushLocked nw1 = Returns nw2 (n2, None) ->
     exists nw3 r,
       Close nw1 = Returns nw3 r /\ closed nw3 = true /\ buffer nw3 = [] /\
       calls (rwc nw3) = calls (rwc nw2) ++ [CallClose r]).
Proof.
  intros C F.
  assert (C1 : closed nw1 = false).
  { pose proof (flushLocked_frame nw) as P. rewrite F in P; simpl in P.
    destruct P as [P _]. congruence. }
  split; [exact (Close_flush_error nw C F)|].
  split; [exact C1|].
  split; [|split].
  - destruct (buffer nw) as [|x b] eqn:E.
    + rewrite (flushLocked_empty nw E) in F; discriminate.
    + assert (NE : buffer nw <> []) by (rewrite E; discriminate).
      destruct (rwc_Write (conn (rwc nw)) (buffer nw)) as [s1 [m e]] eqn:W.
      pose proof (flushLocked_traced nw NE W) as G. cbv zeta in G.
      rewrite F in G. exists m, e. rewrite <- E.
      destruct (length (buffer nw) <? m)%nat; [discriminate|].
      destruct e as [e0|].
      * inversion G; reflexivity.
      * destruct (m =? length (buffer nw))%nat; inversion G; reflexivity.
  - intros nw2 n2 err2 F2. exact (Close_flush_error nw1 C1 F2).
  - intros nw2 n2 F2.
    destruct (rwc_Close (conn (rwc nw2))) as [s2 ec] eqn:K.
    rewrite (Close_flush_nil nw1 C1 F2 K).
    do 2 eexists; split; [reflexivity|].
    cbn [closed buffer rwc calls set_rwc set_closed].
    rewrite (flushLocked_nil_empties nw1 F2). auto.
Qed.

(** C6 on a stream that takes one byte and fails: Close reports the
    failure and stays open. *)
Lemma close_flush_error_leaves_open_witness :
  let nw := set_buffer (NewNagleWrapper (trace (mkChoked [])) 10 50)
              (bytes "abc") in
  exists nw1,
    Close nw = Returns nw1 (Some (StreamError 1)) /\ closed nw1 = false.
Proof.
  intro nw.
  eexists.
  refine ((fun P => conj (proj1 P) (proj1 (proj2 P)))
            (@close_flush_error_leaves_open _ _ nw _ 1 (StreamError 1)
               eq_refl _)).
  reflexivity.
Defined.

(** * Invariants of the reachable states *)

Section Frames.

Context {Stream : Type} `{ReadWriteCloser Stream}.

Implicit Types nw : NagleWrapper Stream.

(** What Write does to the flag, the threshold and the buffer. *)
Lemma Write_frame nw data :
  let nw' := final (Write nw data) in
  closed nw' = closed nw /\ bufferSize nw' = bufferSize nw /\
  (closed nw = true -> buffer nw' = buffer nw).
Proof.
  destruct (closed nw) eqn:C.
  - rewrite (Write_on_closed nw data C); simpl; auto.
  - destruct (Z.lt_ge_cases (Len (buffer nw ++ data)) (bufferSize nw))
      as [L|L].
    + destruct (Write_below nw data C L) as (t & _ & W).
      rewrite W; simpl; repeat split; auto; discriminate.
    + rewrite (Write_at_threshold nw data C L).
      destruct (flushLocked_frame (set_buffer nw (buffer nw ++ data)))
        as (P1 & P2 & _).
      simpl in *. repeat split; try congruence; discriminate.
Qed.

(** A Write that returns nil leaves the buffer below a positive
    threshold, whatever the buffer held before. *)
Lemma Write_nil_below nw data nw' n :
  0 < bufferSize nw ->
  Write nw data = Returns nw' (n, None) ->
  below_threshold nw'.
Proof.
  intros B W. unfold below_threshold.
  destruct (closed nw) eqn:C.
  - rewrite (Write_on_closed nw data C) in W; discriminate.
  - destruct (Z.lt_ge_cases (Len (buffer nw ++ data)) (bufferSize nw))
      as [L|L].
    + destruct (Write_below nw data C L) as (t & _ & W').
      rewrite W' in W; inversion W; subst; simpl; exact L.
    + rewrite (Write_at_threshold nw data C L) in W.
      pose proof (flushLocked_frame (set_buffer nw (buffer nw ++ data)))
        as P.
      rewrite W in P; simpl in P. destruct P as (_ & P & _).
      rewrite (flushLocked_nil_empties _ W), P. exact B.
Qed.

(** Close never lengthens the buffer, keeps the threshold, and sets the
    flag only over an empty buffer. *)
Lemma Close_frame nw :
  let nw' := final (Close nw) in
  bufferSize nw' = bufferSize nw /\
  Len (buffer nw') <= Len (buffer nw) /\
  (closed nw = false -> closed nw' = true -> buffer nw' = []) /\
  (closed nw = true -> nw' = nw).
Proof.
  unfold Close. destruct (closed nw) eqn:C.
  - simpl; repeat split; auto; try lia; discriminate.
  - pose proof (flushLocked_frame nw) as P.
    destruct (flushLocked nw) as [nw1 [n [err|]]|nw1] eqn:F;
      simpl in P; destruct P as (P1 & P2 & _ & _ & P5).
    + simpl; repeat split; auto; try congruence; discriminate.
    + pose proof (flushLocked_nil_empties nw F) as E.
      cbn [rwc set_closed].
      destruct (rwc_Close (rwc nw1)) as [s' e]; simpl.
      repeat split; auto; discriminate.
    + simpl; repeat split; auto; try congruence; discriminate.
Qed.

(** One turn of handleFlush: the same, and the flag is kept. *)
Lemma handleFlush_frame nw :
  let nw' := final (handleFlush_body nw) in
  bufferSize nw' = bufferSize nw /\ closed nw' = closed nw /\
  Len (buffer nw') <= Len (buffer nw) /\
  (closed nw = true -> nw' = nw).
Proof.
  unfold handleFlush_body. destruct (closed nw) eqn:C.
  - simpl; repeat split; auto; lia.
  - destruct (0 <? Len (buffer nw)).
    + pose proof (flushLocked_frame nw) as P.
      destruct (flushLocked nw) as [nw1 r|nw1]; simpl in *;
        destruct P as (P1 & P2 & _ & _ & P5);
        repeat split; auto; try congruence; discriminate.
    + simpl; repeat split; auto; try lia; discriminate.
Qed.

Lemma Read_frame nw n :
  fst (Read nw n) = set_rwc nw (fst (rwc_Read (rwc nw) n)) /\
  snd (Read nw n) = snd (rwc_Read (rwc nw) n).
Proof. unfold Read; destruct (rwc_Read (rwc nw) n); auto. Qed.

End Frames.

Section Steps.

Context {Stream : Type} `{ReadWriteCloser Stream}.

Implicit Types sys : System Stream.

(** The wrapper after a transition, event by event. *)
Lemma step_wrapper sys ev sys' r :
  step sys ev = Some (sys', r) ->
  let nw := wrapper sys in
  match ev with
  | EvWrite data => wrapper sys' = final (Write nw data)
  | EvRead n => wrapper sys' = fst (Read nw n)
  | EvClose => wrapper sys' = final (Close nw)
  | EvExpire | EvWake => exists t, wrapper sys' = set_timer nw t
  | EvHandleFlush => wrapper sys' = final (handleFlush_body nw)
  end.
Proof.
  intros St nw. unfold step in St. fold nw in St. destruct ev.
  - destruct (Write nw data) as [nw' [n e]|nw']; inversion St; reflexivity.
  - destruct (Read nw n) as [nw' [got e]]; inversion St; reflexivity.
  - destruct (Close nw) as [nw' e|nw']; inversion St; reflexivity.
  - destruct (expire (timer nw)) as [t|]; inversion St. exists t; reflexivity.
  - destruct (task sys); try discriminate.
    destruct (receive (timer nw)) as [t|]; inversion St.
    exists t; reflexivity.
  - destruct (task sys); try discriminate.
    destruct (handleFlush_body nw) as [nw' [|]|nw'];
      inversion St; reflexivity.
Qed.

Lemma step_bufferSize sys ev sys' r :
  step sys ev = Some (sys', r) ->
  bufferSize (wrapper sys') = bufferSize (wrapper sys).
Proof.
  intro St. pose proof (step_wrapper sys ev St) as W. cbv zeta in W.
  destruct ev.
  - rewrite W. apply Write_frame.
  - rewrite W. destruct (Read_frame (wrapper sys) n) as [-> _]. reflexivity.
  - rewrite W. apply Close_frame.
  - destruct W as [t ->]. reflexivity.
  - destruct W as [t ->]. reflexivity.
  - rewrite W. apply handleFlush_frame.
Qed.

Lemma step_closed_is_empty sys ev sys' r :
  closed_is_empty (wrapper sys) ->
  step sys ev = Some (sys', r) ->
  closed_is_empty (wrapper sys').
Proof.
  unfold closed_is_empty. intros I St.
  pose proof (step_wrapper sys ev St) as W. cbv zeta in W.
  destruct ev.
  - rewrite W. destruct (Write_frame (wrapper sys) data) as (Fc & _ & Fb).
    intro C. rewrite Fc in C. rewrite (Fb C). exact (I C).
  - rewrite W. destruct (Read_frame (wrapper sys) n) as [-> _]. exact I.
  - rewrite W. destruct (Close_frame (wrapper sys)) as (_ & _ & Fo & Fc).
    destruct (closed (wrapper sys)) eqn:C.
    + rewrite (Fc eq_refl). intros _. exact (I eq_refl).
    + exact (Fo eq_refl).
  - destruct W as [t ->]. exact I.
  - destruct W as [t ->]. exact I.
  - rewrite W.
    destruct (handleFlush_frame (wrapper sys)) as (_ & Fc & _ & Fk).
    intro C. rewrite Fc in C. rewrite (Fk C). exact (I C).
Qed.

Lemma step_below_threshold sys ev sys' r :
  0 < bufferSize (wrapper sys) ->
  below_threshold (wrapper sys) ->
  step sys ev = Some (sys', r) ->
  write_failed ev r = false ->
  below_threshold (wrapper sys').
Proof.
  unfold below_threshold. intros B I St Ok.
  rewrite (step_bufferSize sys ev St).
  destruct ev.
  - unfold step in St.
    destruct (Write (wrapper sys) data) as [nw' [n [e|]]|nw'] eqn:W;
      inversion St; subst; try discriminate.
    pose proof (Write_nil_below (wrapper sys) data B W) as P.
    unfold below_threshold in P.
    destruct (Write_frame (wrapper sys) data) as (_ & Fz & _).
    rewrite W in Fz; simpl in Fz. simpl. rewrite <- Fz. exact P.
  - pose proof (step_wrapper sys (EvRead n) St) as W. cbv zeta in W.
    rewrite W. destruct (Read_frame (wrapper sys) n) as [-> _]. exact I.
  - pose proof (step_wrapper sys EvClose St) as W. cbv zeta in W.
    rewrite W. destruct (Close_frame (wrapper sys)) as (_ & Fl & _). lia.
  - pose proof (step_wrapper sys EvExpire St) as W. cbv zeta in W.
    destruct W as [t ->]. exact I.
  - pose proof (step_wrapper sys EvWake St) as W. cbv zeta in W.
    destruct W as [t ->]. exact I.
  - pose proof (step_wrapper sys EvHandleFlush St) as W. cbv zeta in W.
    rewrite W.
    destruct (handleFlush_frame (wrapper sys)) as (_ & _ & Fl & _). lia.
Qed.

End Steps.

Section Runs.

Context {Stream : Type} `{ReadWriteCloser Stream}.

Implicit Types sys : System Stream.

Lemma run_reachable sys evs sys' rs :
  reachable sys -> run sys evs = Some (sys', rs) -> reachable sys'.
Proof.
  revert sys rs; induction evs as [|ev evs IH]; intros sys rs R E; simpl in E.
  - inversion E; subst; exact R.
  - destruct (step sys ev) as [[sys1 r]|] eqn:St; [|discriminate].
    destruct (run sys1 evs) as [[sys2 rs2]|] eqn:E2; [|discriminate].
    inversion E; subst.
    exact (IH sys1 rs2 (reachable_step ev R St) E2).
Qed.

Lemma run_reachable_clean sys evs sys' rs :
  reachable_clean sys -> run sys evs = Some (sys', rs) ->
  writes_ok evs rs = true -> reachable_clean sys'.
Proof.
  revert sys rs; induction evs as [|ev evs IH]; intros sys rs R E Ok;
    simpl in E.
  - inversion E; subst; exact R.
  - destruct (step sys ev) as [[sys1 r]|] eqn:St; [|discriminate].
    destruct (run sys1 evs) as [[sys2 rs2]|] eqn:E2; [|discriminate].
    inversion E; subst. simpl in Ok.
    apply andb_prop in Ok as [Ok1 Ok2].
    apply negb_true_iff in Ok1.
    exact (IH sys1 rs2 (clean_step ev R St Ok1) E2 Ok2).
Qed.

(** The operations of the caller can always be carried out. *)
Lemma run_callers sys evs :
  forallb caller evs = true -> exists sys' rs, run sys evs = Some (sys', rs).
Proof.
  revert sys; induction evs as [|ev evs IH]; intros sys F; simpl in *.
  - eauto.
  - apply andb_prop in F as [F1 F2].
    assert (St : exists sys1 r, step sys ev = Some (sys1, r)).
    { destruct ev; try discriminate; unfold step.
      - destruct (Write (wrapper sys) data) as [nw' [n e]|nw']; eauto.
      - destruct (Read (wrapper sys) n) as [nw' [got e]]; eauto.
      - destruct (Close (wrapper sys)) as [nw' e|nw']; eauto. }
    destruct St as (sys1 & r & St). rewrite St.
    destruct (IH sys1 F2) as (sys2 & rs & E). rewrite E. eauto.
Qed.

End Runs.

(** C9. In every reachable state (any bufferSize, any stream, any
    interleaving of Write, Read, Close, timer expiry and background flush,
    panics included), a set closed flag comes with an empty buffer. *)
Theorem closed_wrapper_has_empty_buffer
  {Stream : Type} `{ReadWriteCloser Stream} (sys : System Stream) :
  reachable sys ->
  closed (wrapper sys) = true ->
  buffer (wrapper sys) = [].
Proof.
  intro R. change (closed_is_empty (wrapper sys)).
  induction R as [s B T|sys ev sys' r R IH St].
  - intro C; discriminate.
  - exact (step_closed_is_empty sys ev IH St).
Qed.

(** C9 on the third scenario of the tests, after the Close. *)
Lemma closed_wrapper_has_empty_buffer_witness :
  exists sys : System (Traced MockReadWriteCloser),
    run (start (trace mock0) 10 50) [EvWrite (bytes "01234"); EvClose]
      = Some (sys, [RWrite 5 None; RClose None]) /\
    closed (wrapper sys) = true /\ buffer (wrapper sys) = [].
Proof.
  eexists. split; [vm_compute; reflexivity|].
  split; [reflexivity|].
  apply closed_wrapper_has_empty_buffer; [|reflexivity].
  apply (@run_reachable _ _ _ [EvWrite (bytes "01234"); EvClose] _
           [RWrite 5 None; RClose None]
           (reachable_start (trace mock0) 10 50)).
  vm_compute; reflexivity.
Defined.

(** C4, as stated, fails. With [bufferSize = 4] and a stream that takes one
    byte of a Write and reports an error, a Write of six bytes flushes and
    returns with five bytes still buffered; and a wrapper built with
    [bufferSize = 0] starts with a buffer that is not below its threshold.
    Both states are reachable. *)
Lemma buffer_reaches_threshold_after_failed_flush :
  (exists sys : System (Traced Choked),
     run (start (trace (mkChoked [])) 4 50) [EvWrite (bytes "abcdef")]
       = Some (sys, [RWrite 1 (Some (StreamError 1))]) /\
     reachable sys /\
     buffer (wrapper sys) = bytes "bcdef" /\
     bufferSize (wrapper sys) = 4 /\
     ~ Len (buffer (wrapper sys)) < bufferSize (wrapper sys)) /\
  (reachable (start (trace mock0) 0 50) /\
   ~ Len (buffer (wrapper (start (trace mock0) 0 50)))
     < bufferSize (wrapper (start (trace mock0) 0 50))).
Proof.
  split.
  - eexists. split; [vm_compute; reflexivity|].
    split.
    + apply (@run_reachable _ _ _ [EvWrite (bytes "abcdef")] _
               [RWrite 1 (Some (StreamError 1))]
               (reachable_start (trace (mkChoked [])) 4 50)).
      vm_compute; reflexivity.
    + repeat split; vm_compute; discriminate.
  - split; [apply reachable_start|]. vm_compute; discriminate.
Qed.

(** C4, amended. For a wrapper with [bufferSize > 0], in every state
    reached by a history in which every Write returned a nil error (any
    stream, any interleaving with Read, Close, timer expiry and background
    flush), the buffer is strictly shorter than [bufferSize]. And on an
    open wrapper every Write that brings the buffer to the threshold or
    above is the flush of the extended buffer, whatever the stream answers. *)
Theorem buffer_below_threshold_while_writes_succeed
  {Stream : Type} `{ReadWriteCloser Stream} (sys : System Stream) :
  reachable_clean sys ->
  0 < bufferSize (wrapper sys) ->
  Len (buffer (wrapper sys)) < bufferSize (wrapper sys) /\
  (forall data,
     closed (wrapper sys) = false ->
     bufferSize (wrapper sys) <= Len (buffer (wrapper sys) ++ data) ->
     Write (wrapper sys) data =
       flushLocked (set_buffer (wrapper sys) (buffer (wrapper sys) ++ data))).
Proof.
  intros R B. split.
  - change (below_threshold (wrapper sys)).
    induction R as [s B0 T|sys ev sys' r R IH St Ok].
    + exact B.
    + rewrite (step_bufferSize sys ev St) in B.
      exact (step_below_threshold sys ev B (IH B) St Ok).
  - intros data C L. exact (Write_at_threshold (wrapper sys) data C L).
Qed.

(** C4 amended, on the timeout scenario of the tests: after a write of
    five bytes, the expiry of the timer and the background flush, then a
    second write, five bytes are buffered below the threshold of ten. *)
Lemma buffer_below_threshold_while_writes_succeed_witness :
  exists sys : System (Traced MockReadWriteCloser),
    run (start (trace mock0) 10 50)
      [EvWrite (bytes "01234"); EvExpire; EvWake; EvHandleFlush;
       EvWrite (bytes "01234")]
      = Some (sys, [RWrite 5 None; RNone; RNone; RNone; RWrite 5 None]) /\
    Len (buffer (wrapper sys)) < bufferSize (wrapper sys).
Proof.
  eexists. split; [vm_compute; reflexivity|].
  apply buffer_below_threshold_while_writes_succeed; [|reflexivity].
  apply (@run_reachable_clean _ _ _
           [EvWrite (bytes "01234"); EvExpire; EvWake; EvHandleFlush;
            EvWrite (bytes "01234")] _
           [RWrite 5 None; RNone; RNone; RNone; RWrite 5 None]
           (clean_start (trace mock0) 10 50)).
  - vm_compute; reflexivity.
  - reflexivity.
Defined.

(** C8, as stated, fails. The constructor called with [bufferSize = 0] and
    [flushTimeout = 0] gives an open wrapper: a Write on it returns
    [(2, nil)] and puts its two bytes on the stream, and Close returns nil.
    The same with negative values. *)
Lemma constructor_accepts_nonpositive_configuration :
  (let nw := NewNagleWrapper (trace mock0) 0 0 in
   closed nw = false /\
   exists nw1 nw2,
     Write nw (bytes "ab") = Returns nw1 (2, None) /\
     received (calls (rwc nw1)) = bytes "ab" /\
     Close nw1 = Returns nw2 None) /\
  (let nw := NewNagleWrapper (trace mock0) (-1) (-1) in
   closed nw = false /\
   exists nw1 nw2,
     Write nw (bytes "ab") = Returns nw1 (2, None) /\
     received (calls (rwc nw1)) = bytes "ab" /\
     Close nw1 = Returns nw2 None).
Proof.
  split; (split; [reflexivity|]); do 2 eexists;
    (split; [vm_compute; reflexivity|]);
    (split; vm_compute; reflexivity).
Qed.

(** C8, amended. The constructor called with [bufferSize <= 0] or
    [flushTimeout <= 0] checks nothing and gives a wrapper as for any other
    values: open, with an empty buffer, the given stream, the two values
    stored as they came and the timer armed for [flushTimeout]. With
    [bufferSize <= 0] every Write on it is at once the flush of its bytes. *)
Theorem constructor_performs_no_validation
  {Stream : Type} `{ReadWriteCloser Stream} (s : Stream) (B T : Z) :
  B <= 0 \/ T <= 0 ->
  let nw := NewNagleWrapper s B T in
  rwc nw = s /\ buffer nw = [] /\ bufferSize nw = B /\
  flushTimeout nw = T /\ timer nw = NewTimer T /\ closed nw = false /\
  (B <= 0 ->
   forall data, Write nw data = flushLocked (set_buffer nw data)).
Proof.
  intros _ nw. repeat split.
  intros B0 data.
  assert (L : bufferSize nw <= Len (buffer nw ++ data)).
  { simpl. pose proof (Len_nonneg data). lia. }
  exact (Write_at_threshold nw data eq_refl L).
Qed.

Lemma constructor_performs_no_validation_witness :
  closed (NewNagleWrapper (trace mock0) 0 0) = false /\
  bufferSize (NewNagleWrapper (trace mock0) 0 0) = 0.
Proof.
  destruct (@constructor_performs_no_validation _ _ (trace mock0) 0 0)
    as (_ & _ & Bz & _ & _ & C & _).
  - left; vm_compute; discriminate.
  - split; [exact C | exact Bz].
Defined.

(** * After Close *)

Section AfterClose.

Context {Stream : Type} `{ReadWriteCloser Stream}.

Variable is_closed : Stream -> Prop.
Variable cerr : error.
Hypothesis stream_rejects : rejects_after_close is_closed cerr.

Implicit Types sys : System (Traced Stream).

Lemma Close_nil_shuts (nw0 nw : NagleWrapper (Traced Stream)) :
  Close nw0 = Returns nw None -> shut is_closed nw.
Proof.
  unfold Close. destruct (closed nw0) eqn:C; [discriminate|].
  destruct (flushLocked nw0) as [nw1 [n [err|]]|nw1] eqn:F;
    try discriminate.
  cbn [rwc set_closed].
  destruct (rwc_Close (conn (rwc nw1))) as [s2 ec] eqn:K.
  rewrite (traced_Close (rwc nw1) K). intro E; inversion E; subst.
  repeat split; simpl.
  - exact (flushLocked_nil_empties nw0 F).
  - exact (close_closes stream_rejects _ K).
Qed.

(** A shut wrapper stays shut, answers every event with the closed
    response, and its stream receives no byte. *)
Lemma step_shut sys ev sys' r :
  shut is_closed (wrapper sys) ->
  step sys ev = Some (sys', r) ->
  shut is_closed (wrapper sys') /\ closed_response cerr ev r /\
  received (calls (rwc (wrapper sys')))
    = received (calls (rwc (wrapper sys))).
Proof.
  intros (C & E & K) St. unfold step in St. destruct ev.
  - rewrite (Write_on_closed (wrapper sys) data C) in St.
    inversion St; subst; simpl. repeat split; auto.
  - unfold Read in St. cbn [rwc_Read Traced_rwc] in St.
    destruct (read_rejected stream_rejects _ n K) as (s' & got & R & K').
    rewrite R in St. inversion St; subst; simpl.
    repeat split; auto.
    + exists got; reflexivity.
    + rewrite received_app; simpl; apply app_nil_r.
  - rewrite (Close_on_closed (wrapper sys) C) in St.
    inversion St; subst; simpl. repeat split; auto.
  - destruct (expire (timer (wrapper sys))) as [t|]; inversion St; subst.
    simpl. repeat split; auto.
  - destruct (task sys); try discriminate.
    destruct (receive (timer (wrapper sys))) as [t|]; inversion St; subst.
    simpl. repeat split; auto.
  - destruct (task sys); try discriminate.
    unfold handleFlush_body in St. rewrite C in St.
    inversion St; subst; simpl. repeat split; auto.
Qed.

Lemma run_shut sys evs sys' rs :
  shut is_closed (wrapper sys) ->
  run sys evs = Some (sys', rs) ->
  shut is_closed (wrapper sys') /\ Forall2 (closed_response cerr) evs rs /\
  received (calls (rwc (wrapper sys')))
    = received (calls (rwc (wrapper sys))).
Proof.
  revert sys rs; induction evs as [|ev evs IH]; intros sys rs K E;
    simpl in E.
  - inversion E; subst. split; [exact K|]. split; [constructor|reflexivity].
  - destruct (step sys ev) as [[sys1 r]|] eqn:St; [|discriminate].
    destruct (run sys1 evs) as [[sys2 rs2]|] eqn:E2; [|discriminate].
    inversion E; subst.
    destruct (step_shut sys ev K St) as (K1 & R1 & Rc1).
    destruct (IH sys1 rs2 K1 E2) as (K2 & R2 & Rc2).
    repeat split; try apply K2.
    + constructor; assumption.
    + congruence.
Qed.

End AfterClose.

(** The mock of the tests rejects reads after its Close, with
    io.ErrClosedPipe. *)
Lemma Mock_rejects_after_close :
  rejects_after_close (fun m => mock_closed m = true) ErrClosedPipe.
Proof.
  split.
  - intros s s'. simpl. destruct (mock_closed s); intro E; inversion E.
    reflexivity.
  - intros s n C. simpl. rewrite C. exists s, []. auto.
Qed.

Section ClosedAnswers.

Context {Stream : Type} `{ReadWriteCloser Stream}.

Implicit Types sys : System (Traced Stream).

(** Close returns nil only on a wrapper it leaves closed and empty. *)
Lemma Close_nil_closed (nw0 nw : NagleWrapper (Traced Stream)) :
  Close nw0 = Returns nw None -> closed nw = true /\ buffer nw = [].
Proof.
  unfold Close. destruct (closed nw0) eqn:C; [discriminate|].
  destruct (flushLocked nw0) as [nw1 [n [err|]]|nw1] eqn:F;
    try discriminate.
  cbn [rwc set_closed].
  destruct (rwc_Close (conn (rwc nw1))) as [s2 ec] eqn:K.
  rewrite (traced_Close (rwc nw1) K). intro E; inversion E; subst.
  split; simpl; [reflexivity|]. exact (flushLocked_nil_empties nw0 F).
Qed.

(** A closed and empty wrapper stays so over any stream; it refuses Write
    and Close without a call on the stream, and lets Read through. *)
Lemma step_closed sys ev sys' r :
  closed (wrapper sys) = true ->
  buffer (wrapper sys) = [] ->
  step sys ev = Some (sys', r) ->
  closed (wrapper sys') = true /\ buffer (wrapper sys') = [] /\
  closed_answer ev r /\
  calls (rwc (wrapper sys'))
    = calls (rwc (wrapper sys)) ++ read_calls [ev] [r].
Proof.
  intros C E St. unfold step in St. destruct ev.
  - rewrite (Write_on_closed (wrapper sys) data C) in St.
    inversion St; subst; simpl. rewrite app_nil_r. auto.
  - unfold Read in St. cbn [rwc_Read Traced_rwc] in St.
    destruct (rwc_Read (conn (rwc (wrapper sys))) n) as [s' [got e]].
    inversion St; subst; simpl. repeat split; eauto.
  - rewrite (Close_on_closed (wrapper sys) C) in St.
    inversion St; subst; simpl. rewrite app_nil_r. auto.
  - destruct (expire (timer (wrapper sys))) as [t|]; inversion St; subst.
    simpl. rewrite app_nil_r. auto.
  - destruct (task sys); try discriminate.
    destruct (receive (timer (wrapper sys))) as [t|]; inversion St; subst.
    simpl. rewrite app_nil_r. auto.
  - destruct (task sys); try discriminate.
    unfold handleFlush_body in St. rewrite C in St.
    inversion St; subst; simpl. rewrite app_nil_r. auto.
Qed.

Lemma received_read_calls (evs : list event) (rs : list response) :
  received (read_calls evs rs) = [].
Proof.
  revert rs; induction evs as [|ev evs IH]; intros [|r rs]; simpl;
    try reflexivity; destruct ev; try apply IH; try reflexivity.
  destruct r; simpl; apply IH.
Qed.

Lemma run_closed sys evs sys' rs :
  closed (wrapper sys) = true ->
  buffer (wrapper sys) = [] ->
  run sys evs = Some (sys', rs) ->
  closed (wrapper sys') = true /\ buffer (wrapper sys') = [] /\
  Forall2 closed_answer evs rs /\
  calls (rwc (wrapper sys'))
    = calls (rwc (wrapper sys)) ++ read_calls evs rs.
Proof.
  revert sys rs; induction evs as [|ev evs IH]; intros sys rs C B E;
    simpl in E.
  - inversion E; subst. simpl. rewrite app_nil_r.
    repeat split; auto; try constructor.
  - destruct (step sys ev) as [[sys1 r]|] eqn:St; [|discriminate].
    destruct (run sys1 evs) as [[sys2 rs2]|] eqn:E2; [|discriminate].
    inversion E; subst.
    destruct (step_closed sys ev C B St) as (C1 & B1 & A1 & Q1).
    destruct (IH sys1 rs2 C1 B1 E2) as (C2 & B2 & A2 & Q2).
    repeat split; auto.
    rewrite Q2, Q1, <- app_assoc. f_equal.
    destruct ev; try reflexivity. simpl.
    destruct r; reflexivity.
Qed.

End ClosedAnswers.

(** C7, as stated, fails for Read. Over a stream whose Close returns nil
    and leaves reads working (a loop-back buffer with a Close that does
    nothing), "01234" is written and Close returns nil; the Read that
    follows returns the five bytes with a nil error. *)
Lemma read_after_close_can_succeed :
  exists nw nw1 nw2,
    Write (NewNagleWrapper (trace (mkLoopback [])) 10 50) (bytes "01234")
      = Returns nw (5, None) /\
    Close nw = Returns nw1 None /\
    closed nw1 = true /\
    Read nw1 5 = (nw2, (bytes "01234", None)).
Proof.
  do 3 eexists. split; [vm_compute; reflexivity|].
  split; [vm_compute; reflexivity|].
  split; vm_compute; reflexivity.
Qed.

(** C7, amended. Let Close have returned nil on a wrapper, over any
    stream. Then in every history that follows, every Write returns
    [(0, io.ErrClosedPipe)] and every Close returns io.ErrClosedPipe; the
    wrapper stays closed with an empty buffer; the stream receives no call
    but the Reads of the caller, each Read of the wrapper returning what
    the stream's Read returned, so the stream receives no further byte.
    Read fails with the closed-error [cerr] of the stream whenever the
    stream is one that rejects reads after its own Close. The operations of
    the caller can always be carried out, so these answers are given, in
    any number and order. *)
Theorem closed_wrapper_refuses_writes_and_passes_reads
  {Stream : Type} `{ReadWriteCloser Stream}
  (nw0 nw : NagleWrapper (Traced Stream)) (tk : task_state)
  (evs : list event) :
  Close nw0 = Returns nw None ->
  (forall sys' rs,
     run (mkSystem nw tk) evs = Some (sys', rs) ->
     Forall2 closed_answer evs rs /\
     closed (wrapper sys') = true /\ buffer (wrapper sys') = [] /\
     calls (rwc (wrapper sys')) = calls (rwc nw) ++ read_calls evs rs /\
     received (calls (rwc (wrapper sys'))) = received (calls (rwc nw)) /\
     (forall (is_closed : Stream -> Prop) (cerr : error),
        rejects_after_close is_closed cerr ->
        Forall2 (closed_response cerr) evs rs)) /\
  (forallb caller evs = true ->
   exists sys' rs, run (mkSystem nw tk) evs = Some (sys', rs)).
Proof.
  intro Cl. split.
  - intros sys' rs E.
    destruct (Close_nil_closed nw0 Cl) as [C B].
    destruct (run_closed (mkSystem nw tk) evs C B E) as (C' & B' & A & Q).
    cbn [wrapper] in Q.
    repeat split; auto.
    + rewrite Q, received_app, received_read_calls, app_nil_r. reflexivity.
    + intros is_closed cerr RJ.
      pose proof (Close_nil_shuts RJ nw0 Cl) as K.
      destruct (run_shut RJ (mkSystem nw tk) evs K E) as (_ & F & _).
      exact F.
  - apply run_callers.
Qed.

(** C7 amended, on the third scenario of the tests: after "01234" and
    Close, a Write, a Read and a Close all fail with io.ErrClosedPipe, the
    mock being a stream that rejects reads after its Close. *)
Lemma closed_wrapper_refuses_writes_and_passes_reads_witness :
  exists nw sys' rs,
    Close (final (Write (NewNagleWrapper (trace mock0) 10 50)
                    (bytes "01234")))
      = Returns nw None /\
    run (mkSystem nw Parked)
      [EvWrite (bytes "more data"); EvRead 5; EvClose]
      = Some (sys', rs) /\
    Forall2 (closed_response ErrClosedPipe)
      [EvWrite (bytes "more data"); EvRead 5; EvClose] rs /\
    received (calls (rwc (wrapper sys'))) = bytes "01234".
Proof.
  set (nw0 := final (Write (NewNagleWrapper (trace mock0) 10 50)
                       (bytes "01234"))).
  set (nw := final (Close nw0)).
  assert (Cl : Close nw0 = Returns nw None) by reflexivity.
  destruct (@closed_wrapper_refuses_writes_and_passes_reads _ _ nw0 nw
              Parked [EvWrite (bytes "more data"); EvRead 5; EvClose] Cl)
    as [P _].
  eassert (E : run (mkSystem nw Parked)
                 [EvWrite (bytes "more data"); EvRead 5; EvClose]
               = Some (_, _)) by (vm_compute; reflexivity).
  destruct (P _ _ E) as (_ & _ & _ & _ & R & J).
  exists nw. do 2 eexists. split; [exact Cl|]. split; [exact E|].
  split.
  - exact (J _ _ Mock_rejects_after_close).
  - rewrite R. reflexivity.
Defined.

(** * Further properties of the wrapper *)

(** ** Bytes are neither lost nor repeated *)

Section Conservation.

Context {Stream : Type} `{ReadWriteCloser Stream}.

Implicit Types nw : NagleWrapper (Traced Stream).
Implicit Types sys : System (Traced Stream).

(** A flush that returns moves bytes from the buffer to the stream. *)
Lemma flushLocked_conserves nw nw' x :
  flushLocked nw = Returns nw' x ->
  received (calls (rwc nw')) ++ buffer nw'
    = received (calls (rwc nw)) ++ buffer nw.
Proof.
  destruct (buffer nw) as [|y b] eqn:E.
  - rewrite (flushLocked_empty nw E). intro R; inversion R; subst.
    rewrite E; reflexivity.
  - rewrite <- E.
    assert (NE : buffer nw <> []) by (rewrite E; discriminate).
    destruct (rwc_Write (conn (rwc nw)) (buffer nw)) as [s1 [m e]] eqn:W.
    rewrite (flushLocked_traced nw NE W).
    destruct (length (buffer nw) <? m)%nat; [discriminate|].
    assert (P : received (calls (rwc nw) ++ [CallWrite (buffer nw) m e])
                  ++ skipn m (buffer nw)
                = received (calls (rwc nw)) ++ buffer nw).
    { rewrite received_app; cbn [received].
      rewrite app_nil_r, <- app_assoc, firstn_skipn. reflexivity. }
    destruct e as [err|].
    + intro R; inversion R; subst; exact P.
    + destruct (Nat.eqb_spec m (length (buffer nw))) as [Em|_];
        intro R; inversion R as [[R1 R2]]; clear R R2; subst nw';
        cbn [rwc set_rwc set_buffer buffer calls].
      * rewrite <- P, Em, skipn_all. reflexivity.
      * exact P.
Qed.

Lemma Write_conserves nw data nw' x :
  Write nw data = Returns nw' x ->
  received (calls (rwc nw')) ++ buffer nw'
    = received (calls (rwc nw)) ++ buffer nw
      ++ (if closed nw then [] else data).
Proof.
  destruct (closed nw) eqn:C.
  - rewrite (Write_on_closed nw data C). intro R; inversion R; subst.
    rewrite app_nil_r; reflexivity.
  - destruct (Z.lt_ge_cases (Len (buffer nw ++ data)) (bufferSize nw))
      as [L|L].
    + destruct (Write_below nw data C L) as (t & _ & W). rewrite W.
      intro R; inversion R; subst; reflexivity.
    + rewrite (Write_at_threshold nw data C L). intro F.
      rewrite (flushLocked_conserves _ F). reflexivity.
Qed.

Lemma Close_conserves nw nw' x :
  Close nw = Returns nw' x ->
  received (calls (rwc nw')) ++ buffer nw'
    = received (calls (rwc nw)) ++ buffer nw.
Proof.
  unfold Close. destruct (closed nw).
  - intro R; inversion R; reflexivity.
  - destruct (flushLocked nw) as [nw1 [n [err|]]|nw1] eqn:F;
      try discriminate.
    + intro R; inversion R; subst. exact (flushLocked_conserves nw F).
    + cbn [rwc set_closed].
      destruct (rwc_Close (conn (rwc nw1))) as [s2 ec] eqn:K.
      rewrite (traced_Close (rwc nw1) K).
      intro R; inversion R; subst; cbn [rwc set_rwc calls buffer set_closed].
      rewrite received_app; cbn [received]. rewrite app_nil_r.
      exact (flushLocked_conserves nw F).
Qed.

Lemma handleFlush_conserves nw nw' x :
  handleFlush_body nw = Returns nw' x ->
  received (calls (rwc nw')) ++ buffer nw'
    = received (calls (rwc nw)) ++ buffer nw.
Proof.
  unfold handleFlush_body. destruct (closed nw).
  - intro R; inversion R; reflexivity.
  - destruct (0 <? Len (buffer nw)).
    + destruct (flushLocked nw) as [nw1 r|nw1] eqn:F; [|discriminate].
      intro R; inversion R; subst. exact (flushLocked_conserves nw F).
    + intro R; inversion R; reflexivity.
Qed.

Lemma step_conserves sys ev sys' r :
  step sys ev = Some (sys', r) ->
  r <> RPanic ->
  received (calls (rwc (wrapper sys'))) ++ buffer (wrapper sys')
    = received (calls (rwc (wrapper sys))) ++ buffer (wrapper sys)
      ++ accepts sys ev.
Proof.
  intros St NP. unfold step in St. destruct ev; cbn [accepts].
  - destruct (Write (wrapper sys) data) as [nw' [n e]|nw'] eqn:W;
      inversion St; subst; [|congruence].
    exact (Write_conserves (wrapper sys) data W).
  - unfold Read in St. cbn [rwc_Read Traced_rwc] in St.
    destruct (rwc_Read (conn (rwc (wrapper sys))) n) as [s' [got e]].
    inversion St; subst; cbn [wrapper rwc set_rwc calls buffer].
    rewrite received_app; cbn [received]. rewrite !app_nil_r. reflexivity.
  - destruct (Close (wrapper sys)) as [nw' e|nw'] eqn:W;
      inversion St; subst; [|congruence].
    rewrite app_nil_r. exact (Close_conserves (wrapper sys) W).
  - destruct (expire (timer (wrapper sys))) as [t|]; inversion St; subst.
    rewrite app_nil_r. reflexivity.
  - destruct (task sys); try discriminate.
    destruct (receive (timer (wrapper sys))) as [t|]; inversion St; subst.
    rewrite app_nil_r. reflexivity.
  - destruct (task sys); try discriminate.
    destruct (handleFlush_body (wrapper sys)) as [nw' [|]|nw'] eqn:W;
      inversion St; subst; try congruence;
      rewrite app_nil_r; exact (handleFlush_conserves (wrapper sys) W).
Qed.

End Conservation.

(** ** No panic over a well-behaved stream *)

Section NoPanic.

Context {Stream : Type} `{ReadWriteCloser Stream}.

Hypothesis bound : writer_bound Stream.

Implicit Types nw : NagleWrapper Stream.

Lemma flushLocked_returns nw : exists nw' x, flushLocked nw = Returns nw' x.
Proof.
  destruct (buffer nw) as [|y b] eqn:E.
  - rewrite (flushLocked_empty nw E); eauto.
  - assert (NE : buffer nw <> []) by (rewrite E; discriminate).
    destruct (rwc_Write (rwc nw) (buffer nw)) as [s1 [m e]] eqn:W.
    pose proof (bound (rwc nw) (buffer nw)) as M. rewrite W in M; simpl in M.
    rewrite (flushLocked_nonempty nw NE W).
    destruct (Nat.ltb_spec (length (buffer nw)) m) as [?|_]; [lia|].
    destruct e; [eauto|]. destruct (m =? length (buffer nw))%nat; eauto.
Qed.

Lemma Write_returns nw data : exists nw' x, Write nw data = Returns nw' x.
Proof.
  unfold Write. destruct (closed nw); [eauto|]. cbv zeta.
  match goal with |- context [if ?c then _ else _] => destruct c end.
  - apply flushLocked_returns.
  - destruct (Stop _); eauto.
Qed.

Lemma Close_returns nw : exists nw' x, Close nw = Returns nw' x.
Proof.
  unfold Close. destruct (closed nw); [eauto|].
  destruct (flushLocked_returns nw) as (nw1 & [n [err|]] & ->); [eauto|].
  cbv zeta. destruct (rwc_Close _); eauto.
Qed.

Lemma handleFlush_returns nw :
  exists nw' x, handleFlush_body nw = Returns nw' x.
Proof.
  unfold handleFlush_body. destruct (closed nw); [eauto|].
  destruct (0 <? Len (buffer nw)); [|eauto].
  destruct (flushLocked_returns nw) as (nw1 & x & ->); eauto.
Qed.

Lemma step_no_panic (sys : System Stream) ev sys' r :
  step sys ev = Some (sys', r) -> r <> RPanic.
Proof.
  unfold step. destruct ev.
  - destruct (Write_returns (wrapper sys) data) as (nw' & [n e] & ->).
    intro E; inversion E; discriminate.
  - destruct (Read (wrapper sys) n) as [nw' [got e]].
    intro E; inversion E; discriminate.
  - destruct (Close_returns (wrapper sys)) as (nw' & e & ->).
    intro E; inversion E; discriminate.
  - destruct (expire _); intro E; inversion E; discriminate.
  - destruct (task sys); try discriminate.
    destruct (receive _); intro E; inversion E; discriminate.
  - destruct (task sys); try discriminate.
    destruct (handleFlush_returns (wrapper sys)) as (nw' & [|] & ->);
      intro E; inversion E; discriminate.
Qed.

End NoPanic.

Lemma traced_writer_bound {Stream : Type} `{ReadWriteCloser Stream} :
  writer_bound Stream -> writer_bound (Traced Stream).
Proof.
  intros B t p. pose proof (B (conn t) p) as M. simpl.
  destruct (rwc_Write (conn t) p) as [s' [m e]]. exact M.
Qed.

Lemma Mock_writer_bound : writer_bound MockReadWriteCloser.
Proof. intros s p. simpl. destruct (mock_closed s); simpl; lia. Qed.

Lemma writer_contract_bound {Stream : Type} `{ReadWriteCloser Stream} :
  writer_contract Stream -> writer_bound Stream.
Proof.
  intros K s p. destruct (K s p) as [_ U]. unfold Len in U. lia.
Qed.

Lemma Mock_writer_contract : writer_contract MockReadWriteCloser.
Proof.
  intros s p. simpl. unfold Len.
  destruct (mock_closed s); simpl; lia.
Qed.

Lemma Choked_writer_contract : writer_contract Choked.
Proof.
  intros s p. unfold Len. cbn [rwc_Write Choked_rwc fst snd].
  pose proof (Nat.le_min_r 1 (length p)). lia.
Qed.

Lemma run_no_panic {Stream : Type} `{ReadWriteCloser Stream}
  (sys sys' : System Stream) (evs : list event) (rs : list response) :
  writer_bound Stream ->
  run sys evs = Some (sys', rs) ->
  Forall (fun r => r <> RPanic) rs.
Proof.
  intro B. revert sys rs; induction evs as [|ev evs IH]; intros sys rs E;
    simpl in E.
  - inversion E; constructor.
  - destruct (step sys ev) as [[sys1 r]|] eqn:St; [|discriminate].
    destruct (run sys1 evs) as [[sys2 rs2]|] eqn:E2; [|discriminate].
    inversion E; subst. constructor.
    + exact (step_no_panic B sys ev St).
    + exact (IH sys1 rs2 E2).
Qed.

(** X2. Over a stream that keeps the promise of io.Writer on the count of
    its Write, [0 <= n <= len(p)], no operation of any history panics:
    Write, Close and the background flush always return. (A stream that
    returns a negative count is not covered: bytes.Buffer accepts such a
    count and a later operation can then panic.) *)
Theorem no_panic_within_writer_contract
  {Stream : Type} `{ReadWriteCloser Stream}
  (sys sys' : System Stream) (evs : list event) (rs : list response) :
  writer_contract Stream ->
  run sys evs = Some (sys', rs) ->
  Forall (fun r => r <> RPanic) rs.
Proof.
  intros K E. exact (run_no_panic sys evs (writer_contract_bound K) E).
Qed.

Lemma no_panic_within_writer_contract_witness :
  exists (sys : System MockReadWriteCloser) rs,
    run (start mock0 10 50)
      [EvWrite (bytes "0123456789"); EvClose; EvWrite (bytes "x")]
      = Some (sys, rs) /\
    Forall (fun r => r <> RPanic) rs.
Proof.
  eassert (E : run (start mock0 10 50)
                 [EvWrite (bytes "0123456789"); EvClose; EvWrite (bytes "x")]
               = Some (_, _)) by (vm_compute; reflexivity).
  do 2 eexists. split; [exact E|].
  exact (no_panic_within_writer_contract _ _ Mock_writer_contract E).
Defined.

(** ** The closed flag and the background task *)

(** X3. The closed flag never goes back: from a state in which it is set,
    every history (any stream, panics included) ends in a state in which
    it is set. *)
Theorem closed_is_permanent
  {Stream : Type} `{ReadWriteCloser Stream}
  (sys sys' : System Stream) (evs : list event) (rs : list response) :
  closed (wrapper sys) = true ->
  run sys evs = Some (sys', rs) ->
  closed (wrapper sys') = true.
Proof.
  revert sys rs; induction evs as [|ev evs IH]; intros sys rs C E;
    simpl in E.
  - inversion E; subst; exact C.
  - destruct (step sys ev) as [[sys1 r]|] eqn:St; [|discriminate].
    destruct (run sys1 evs) as [[sys2 rs2]|] eqn:E2; [|discriminate].
    inversion E; subst. apply (IH sys1 rs2); [|exact E2].
    pose proof (step_wrapper sys ev St) as W. cbv zeta in W.
    destruct ev.
    + rewrite W. destruct (Write_frame (wrapper sys) data) as (-> & _).
      exact C.
    + rewrite W. destruct (Read_frame (wrapper sys) n) as [-> _]. exact C.
    + rewrite W. destruct (Close_frame (wrapper sys)) as (_ & _ & _ & ->);
        auto.
    + destruct W as [t ->]. exact C.
    + destruct W as [t ->]. exact C.
    + rewrite W.
      destruct (handleFlush_frame (wrapper sys)) as (_ & -> & _). exact C.
Qed.

Lemma closed_is_permanent_witness :
  exists sys : System (Traced MockReadWriteCloser),
    run (mkSystem (set_closed (NewNagleWrapper (trace mock0) 10 50) true)
           Parked)
      [EvWrite (bytes "ab"); EvExpire; EvWake; EvHandleFlush; EvClose]
      = Some (sys, [RWrite 0 (Some ErrClosedPipe); RNone; RNone; RNone;
                    RClose (Some ErrClosedPipe)]) /\
    closed (wrapper sys) = true.
Proof.
  eassert (E : run (mkSystem
                      (set_closed (NewNagleWrapper (trace mock0) 10 50) true)
                      Parked)
                 [EvWrite (bytes "ab"); EvExpire; EvWake; EvHandleFlush;
                  EvClose]
               = Some (_, _)) by (vm_compute; reflexivity).
  eexists. split; [exact E|].
  exact ((fun C => @closed_is_permanent _ _ _ _ _ _ C E) eq_refl).
Defined.

(** X4. One turn of handleFlush on an open wrapper with a non-empty
    buffer, the stream answering [(m, e)] within the bound of io.Writer:
    the stream receives one Write of the whole buffer; the [m] bytes it
    took leave the buffer and the rest stays; whatever error the flush had
    is dropped and the loop goes on; the wrapper stays open and the timer
    is left as it was, so nothing re-arms it for the bytes that stayed. *)
Theorem background_flush_drops_error
  {Stream : Type} `{ReadWriteCloser Stream}
  (nw : NagleWrapper (Traced Stream)) (s1 : Stream) (m : nat)
  (e : option error) :
  closed nw = false ->
  buffer nw <> [] ->
  rwc_Write (conn (rwc nw)) (buffer nw) = (s1, (m, e)) ->
  (m <= length (buffer nw))%nat ->
  exists nw',
    handleFlush_body nw = Returns nw' true /\
    calls (rwc nw') = calls (rwc nw) ++ [CallWrite (buffer nw) m e] /\
    buffer nw' = skipn m (buffer nw) /\
    closed nw' = false /\
    timer nw' = timer nw.
Proof.
  intros C NE W M. unfold handleFlush_body. rewrite C.
  assert (L : 0 < Len (buffer nw)).
  { pose proof (Len_nonneg (buffer nw)).
    destruct (Z.eq_dec (Len (buffer nw)) 0) as [Z0|]; [|lia].
    apply Len_nil_iff in Z0; contradiction. }
  destruct (Z.ltb_spec 0 (Len (buffer nw))) as [_|?]; [|lia].
  rewrite (flushLocked_traced nw NE W).
  destruct (Nat.ltb_spec (length (buffer nw)) m) as [?|_]; [lia|].
  destruct e as [err|].
  - eexists; split; [reflexivity|]. simpl; auto.
  - destruct (Nat.eqb_spec m (length (buffer nw))) as [->|_].
    + eexists; split; [reflexivity|]. simpl. rewrite skipn_all; auto.
    + eexists; split; [reflexivity|]. simpl; auto.
Qed.

Lemma background_flush_drops_error_witness :
  let nw := set_buffer (NewNagleWrapper (trace (mkChoked [])) 10 50)
              (bytes "abc") in
  exists nw',
    handleFlush_body nw = Returns nw' true /\ buffer nw' = bytes "bc".
Proof.
  intro nw.
  destruct (@background_flush_drops_error _ _ nw (mkChoked (bytes "a"))
              1%nat (Some (StreamError 1)))
    as (nw' & R & _ & B & _).
  - reflexivity.
  - discriminate.
  - reflexivity.
  - vm_compute. repeat constructor.
  - exists nw'. split; [exact R | exact B].
Defined.

(** X5. Close does not wake the background task. When the wrapper is
    closed while the task is parked on the channel of a timer that is
    neither armed nor holding a value, nothing can ever reach the task
    again: in every later history it is still parked, since a closed
    wrapper never resets the timer. *)
Theorem parked_task_outlives_close
  {Stream : Type} `{ReadWriteCloser Stream}
  (sys sys' : System Stream) (evs : list event) (rs : list response) :
  closed (wrapper sys) = true ->
  task sys = Parked ->
  timer (wrapper sys) = mkTimer None false ->
  run sys evs = Some (sys', rs) ->
  task sys' = Parked /\ timer (wrapper sys') = mkTimer None false.
Proof.
  revert sys rs; induction evs as [|ev evs IH]; intros sys rs C P T E;
    simpl in E.
  - inversion E; subst; auto.
  - destruct (step sys ev) as [[sys1 r]|] eqn:St; [|discriminate].
    destruct (run sys1 evs) as [[sys2 rs2]|] eqn:E2; [|discriminate].
    inversion E; subst.
    assert (K : closed (wrapper sys1) = true /\ task sys1 = Parked /\
                timer (wrapper sys1) = mkTimer None false).
    { unfold step in St. destruct ev.
      - rewrite (Write_on_closed (wrapper sys) data C) in St.
        inversion St; subst; auto.
      - unfold Read in St.
        destruct (rwc_Read (rwc (wrapper sys)) n) as [s' [got e]].
        inversion St; subst; auto.
      - unfold Close in St. rewrite C in St. inversion St; subst; auto.
      - rewrite T in St. discriminate.
      - rewrite P, T in St. discriminate.
      - rewrite P in St. discriminate. }
    destruct K as (C1 & P1 & T1). exact (IH sys1 rs2 C1 P1 T1 E2).
Qed.

(** X5 on the tests' mock: a write, the timer flush, then Close; after
    that, further calls leave the task parked. *)
Lemma parked_task_outlives_close_witness :
  exists (sys1 sys2 : System (Traced MockReadWriteCloser)) rs1 rs2,
    run (start (trace mock0) 10 50)
      [EvWrite (bytes "01234"); EvExpire; EvWake; EvHandleFlush; EvClose]
      = Some (sys1, rs1) /\
    run sys1 [EvWrite (bytes "x"); EvClose; EvRead 1] = Some (sys2, rs2) /\
    task sys2 = Parked.
Proof.
  eassert (E1 : run (start (trace mock0) 10 50)
                  [EvWrite (bytes "01234"); EvExpire; EvWake; EvHandleFlush;
                   EvClose]
                = Some (_, _)) by (vm_compute; reflexivity).
  match type of E1 with
  | _ = Some (?s1, _) =>
      eassert (E2 : run s1 [EvWrite (bytes "x"); EvClose; EvRead 1]
                    = Some (_, _)) by (vm_compute; reflexivity)
  end.
  do 4 eexists. split; [exact E1|]. split; [exact E2|].
  exact ((fun C P T =>
            proj1 (@parked_task_outlives_close _ _ _ _ _ _ C P T E2))
           eq_refl eq_refl eq_refl).
Defined.

(** ** The calls the stream receives *)

Lemma close_discipline_snoc (cs : list Call) (c : Call) :
  close_called cs = false -> close_discipline (cs ++ [c]) = true.
Proof.
  induction cs as [|x cs IH]; simpl; intro N.
  - destruct c; reflexivity.
  - destruct x; auto; discriminate.
Qed.

Lemma close_discipline_read (cs : list Call) n got e :
  close_discipline cs = true ->
  close_discipline (cs ++ [CallRead n got e]) = true.
Proof.
  induction cs as [|x cs IH]; simpl; intro D; [reflexivity|].
  destruct x; auto.
  rewrite forallb_app, D. reflexivity.
Qed.

Lemma close_called_snoc_write (cs : list Call) p m e :
  close_called (cs ++ [CallWrite p m e]) = close_called cs.
Proof. rewrite close_called_app; simpl; apply orb_false_r. Qed.

Section CallOrder.

Context {Stream : Type} `{ReadWriteCloser Stream}.

Implicit Types nw : NagleWrapper (Traced Stream).
Implicit Types sys : System (Traced Stream).

(** A flush makes no call, or one Write of a non-empty buffer. *)
Lemma flushLocked_calls nw :
  calls (rwc (final (flushLocked nw))) = calls (rwc nw) \/
  exists m e,
    buffer nw <> [] /\
    calls (rwc (final (flushLocked nw)))
      = calls (rwc nw) ++ [CallWrite (buffer nw) m e].
Proof.
  destruct (buffer nw) as [|y b] eqn:E.
  - left. rewrite (flushLocked_empty nw E). reflexivity.
  - right. rewrite <- E.
    assert (NE : buffer nw <> []) by (rewrite E; discriminate).
    destruct (rwc_Write (conn (rwc nw)) (buffer nw)) as [s1 [m e]] eqn:W.
    exists m, e. split; [exact NE|].
    rewrite (flushLocked_traced nw NE W).
    destruct (length (buffer nw) <? m)%nat; [reflexivity|].
    destruct e; [reflexivity|].
    destruct (m =? length (buffer nw))%nat; reflexivity.
Qed.

(** What an open or closed wrapper may add to the calls in one
    transition: nothing, a Read, a Write of a non-empty slice by an open
    wrapper that stays open, or, by an open wrapper that closes, a Close
    with at most such a Write before it. *)
Lemma step_calls sys ev sys' r :
  step sys ev = Some (sys', r) ->
  let cs := calls (rwc (wrapper sys)) in
  let cs' := calls (rwc (wrapper sys')) in
  (cs' = cs /\ closed (wrapper sys') = closed (wrapper sys)) \/
  (exists n got e, cs' = cs ++ [CallRead n got e] /\
     closed (wrapper sys') = closed (wrapper sys)) \/
  (closed (wrapper sys) = false /\
   exists p m e, p <> [] /\ cs' = cs ++ [CallWrite p m e] /\
     closed (wrapper sys') = false) \/
  (closed (wrapper sys) = false /\
   exists ec, cs' = cs ++ [CallClose ec] /\
     closed (wrapper sys') = true) \/
  (closed (wrapper sys) = false /\
   exists p m e ec, p <> [] /\
     cs' = (cs ++ [CallWrite p m e]) ++ [CallClose ec] /\
     closed (wrapper sys') = true).
Proof.
  intros St cs cs'. subst cs cs'.
  pose proof (step_wrapper sys ev St) as W. cbv zeta in W.
  destruct ev.
  - (* Write *)
    rewrite W. destruct (closed (wrapper sys)) eqn:C.
    + left. rewrite (Write_on_closed (wrapper sys) data C). auto.
    + destruct (Z.lt_ge_cases (Len (buffer (wrapper sys) ++ data))
                  (bufferSize (wrapper sys))) as [L|L].
      * left. destruct (Write_below (wrapper sys) data C L) as (t & _ & ->).
        auto.
      * rewrite (Write_at_threshold (wrapper sys) data C L).
        set (nw1 := set_buffer (wrapper sys) (buffer (wrapper sys) ++ data)).
        destruct (flushLocked_frame nw1) as (Fc & _).
        destruct (flushLocked_calls nw1) as [Q|(m & e & NE & Q)].
        -- left. rewrite Q, Fc. auto.
        -- right; right; left. split; [reflexivity|].
           exists (buffer nw1), m, e. rewrite Q, Fc. auto.
  - (* Read *)
    right; left. rewrite W. unfold Read. cbn [rwc_Read Traced_rwc].
    destruct (rwc_Read (conn (rwc (wrapper sys))) n) as [s' [got e]].
    exists n, got, e. auto.
  - (* Close *)
    rewrite W. unfold Close. destruct (closed (wrapper sys)) eqn:C.
    + left. auto.
    + destruct (flushLocked_frame (wrapper sys)) as (Fc & _).
      rewrite C in Fc.
      pose proof (flushLocked_calls (wrapper sys)) as Q.
      destruct (flushLocked (wrapper sys)) as [nw1 [n [err|]]|nw1] eqn:F;
        cbn [final] in *.
      * destruct Q as [Q|(m & e & NE & Q)]; [left; auto|].
        right; right; left. split; [reflexivity|].
        exists (buffer (wrapper sys)), m, e. auto.
      * cbn [rwc set_closed].
        destruct (rwc_Close (conn (rwc nw1))) as [s2 ec] eqn:K.
        rewrite (traced_Close (rwc nw1) K).
        cbn [final rwc set_rwc calls closed].
        destruct Q as [Q|(m & e & NE & Q)]; rewrite Q.
        -- right; right; right; left. split; [reflexivity|]. eauto.
        -- right; right; right; right. split; [reflexivity|].
           exists (buffer (wrapper sys)), m, e, ec. auto.
      * destruct Q as [Q|(m & e & NE & Q)]; [left; auto|].
        right; right; left. split; [reflexivity|].
        exists (buffer (wrapper sys)), m, e. auto.
  - destruct W as [t ->]. left; auto.
  - destruct W as [t ->]. left; auto.
  - (* turn of handleFlush *)
    rewrite W. unfold handleFlush_body.
    destruct (closed (wrapper sys)) eqn:C; [left; auto|].
    destruct (0 <? Len (buffer (wrapper sys))); [|left; auto].
    destruct (flushLocked_frame (wrapper sys)) as (Fc & _).
    rewrite C in Fc.
    pose proof (flushLocked_calls (wrapper sys)) as Q.
    destruct (flushLocked (wrapper sys)) as [nw1 x|nw1]; cbn [final] in *;
      (destruct Q as [Q|(m & e & NE & Q)]; [left; auto|];
       right; right; left; split; [reflexivity|];
       exists (buffer (wrapper sys)), m, e; auto).
Qed.

(** While the wrapper is open the stream's Close has not been called, and
    the calls are in order. *)
Lemma step_close_discipline sys ev sys' r :
  step sys ev = Some (sys', r) ->
  (closed (wrapper sys) = false ->
   close_called (calls (rwc (wrapper sys))) = false) ->
  close_discipline (calls (rwc (wrapper sys))) = true ->
  (closed (wrapper sys') = false ->
   close_called (calls (rwc (wrapper sys'))) = false) /\
  close_discipline (calls (rwc (wrapper sys'))) = true.
Proof.
  intros St O D.
  destruct (step_calls sys ev St)
    as [(Q & C)|[(n & got & e & Q & C)|[(C & p & m & e & NE & Q & C')
       |[(C & ec & Q & C')|(C & p & m & e & ec & NE & Q & C')]]]];
    rewrite Q.
  - rewrite C. auto.
  - rewrite C. split.
    + intro C0. rewrite close_called_app, (O C0). reflexivity.
    + apply close_discipline_read; exact D.
  - split.
    + intros _. rewrite close_called_snoc_write. exact (O C).
    + apply close_discipline_snoc. exact (O C).
  - split.
    + rewrite C'; discriminate.
    + apply close_discipline_snoc. exact (O C).
  - split.
    + rewrite C'; discriminate.
    + apply close_discipline_snoc.
      rewrite close_called_snoc_write. exact (O C).
Qed.

Lemma step_nonempty_writes sys ev sys' r :
  step sys ev = Some (sys', r) ->
  forallb nonempty_write (calls (rwc (wrapper sys))) = true ->
  forallb nonempty_write (calls (rwc (wrapper sys'))) = true.
Proof.
  intros St D.
  assert (N : forall p m e, p <> [] -> nonempty_write (CallWrite p m e) = true).
  { intros [|x p] m e NE; [contradiction|reflexivity]. }
  destruct (step_calls sys ev St)
    as [(Q & C)|[(n & got & e & Q & C)|[(C & p & m & e & NE & Q & C')
       |[(C & ec & Q & C')|(C & p & m & e & ec & NE & Q & C')]]]];
    rewrite Q, ?forallb_app, ?D; cbn [forallb].
  - reflexivity.
  - reflexivity.
  - rewrite (N p m e NE); reflexivity.
  - reflexivity.
  - rewrite (N p m e NE); reflexivity.
Qed.

End CallOrder.

Lemma step_close_called {Stream : Type} `{ReadWriteCloser Stream}
  (sys sys' : System (Traced Stream)) ev r :
  step sys ev = Some (sys', r) ->
  close_called (calls (rwc (wrapper sys))) = closed (wrapper sys) ->
  close_called (calls (rwc (wrapper sys'))) = closed (wrapper sys').
Proof.
  intros St I.
  destruct (step_calls sys ev St)
    as [(Q & C)|[(n & got & e & Q & C)|[(C & p & m & e & NE & Q & C')
       |[(C & ec & Q & C')|(C & p & m & e & ec & NE & Q & C')]]]];
    rewrite Q, ?close_called_app; simpl; rewrite ?orb_false_r, ?orb_true_r;
    congruence.
Qed.

(** X6. In every history of a wrapper built over a stream, with any
    interleaving of caller and background and also after panics: the
    stream's Close has been called exactly when the closed flag is set, and
    after that call the stream receives nothing but Reads: no Write follows
    its Close, and it is closed at most once. *)
Theorem stream_closed_once_and_last
  {Stream : Type} `{ReadWriteCloser Stream}
  (s : Stream) (B T : Z) (evs : list event)
  (sys' : System (Traced Stream)) (rs : list response) :
  run (start (trace s) B T) evs = Some (sys', rs) ->
  close_called (calls (rwc (wrapper sys'))) = closed (wrapper sys') /\
  close_discipline (calls (rwc (wrapper sys'))) = true.
Proof.
  assert (G : forall evs (sys : System (Traced Stream)) rs,
             run sys evs = Some (sys', rs) ->
             close_called (calls (rwc (wrapper sys))) = closed (wrapper sys) ->
             close_discipline (calls (rwc (wrapper sys))) = true ->
             close_called (calls (rwc (wrapper sys')))
               = closed (wrapper sys') /\
             close_discipline (calls (rwc (wrapper sys'))) = true).
  { clear evs rs. induction evs as [|ev evs IH]; intros sys rs E I D;
      simpl in E.
    - inversion E; subst; auto.
    - destruct (step sys ev) as [[sys1 r]|] eqn:St; [|discriminate].
      destruct (run sys1 evs) as [[sys2 rs2]|] eqn:E2; [|discriminate].
      inversion E; subst.
      apply (IH sys1 rs2 E2).
      + exact (step_close_called sys ev St I).
      + apply (step_close_discipline sys ev St); [|exact D].
        intro C; rewrite I; exact C. }
  intro E. exact (G evs _ rs E eq_refl eq_refl).
Qed.

Lemma stream_closed_once_and_last_witness :
  exists (sys : System (Traced MockReadWriteCloser)) rs,
    run (start (trace mock0) 10 50)
      [EvWrite (bytes "01234"); EvClose; EvWrite (bytes "x"); EvClose;
       EvRead 3]
      = Some (sys, rs) /\
    calls (rwc (wrapper sys))
      = [CallWrite (bytes "01234") 5 None; CallClose None;
         CallRead 3 [] (Some ErrClosedPipe)] /\
    close_discipline (calls (rwc (wrapper sys))) = true.
Proof.
  eassert (E : run (start (trace mock0) 10 50)
                 [EvWrite (bytes "01234"); EvClose; EvWrite (bytes "x");
                  EvClose; EvRead 3]
               = Some (_, _)) by (vm_compute; reflexivity).
  do 2 eexists. split; [exact E|]. split; [reflexivity|].
  exact (proj2 (stream_closed_once_and_last _ _ _ _ E)).
Defined.

(** X7. The wrapper never calls the stream's Write with nothing to write:
    in every history from construction, every Write the stream has received
    carried at least one byte. *)
Theorem stream_never_gets_empty_write
  {Stream : Type} `{ReadWriteCloser Stream}
  (s : Stream) (B T : Z) (evs : list event)
  (sys' : System (Traced Stream)) (rs : list response) :
  run (start (trace s) B T) evs = Some (sys', rs) ->
  forallb nonempty_write (calls (rwc (wrapper sys'))) = true.
Proof.
  assert (G : forall evs (sys : System (Traced Stream)) rs,
             run sys evs = Some (sys', rs) ->
             forallb nonempty_write (calls (rwc (wrapper sys))) = true ->
             forallb nonempty_write (calls (rwc (wrapper sys'))) = true).
  { clear evs rs. induction evs as [|ev evs IH]; intros sys rs E D;
      simpl in E.
    - inversion E; subst; exact D.
    - destruct (step sys ev) as [[sys1 r]|] eqn:St; [|discriminate].
      destruct (run sys1 evs) as [[sys2 rs2]|] eqn:E2; [|discriminate].
      inversion E; subst.
      exact (IH sys1 rs2 E2 (step_nonempty_writes sys ev St D)). }
  intro E. exact (G evs _ rs E eq_refl).
Qed.

(** X7 with [bufferSize = 0], where every Write flushes: the empty Write
    and the Close of an empty buffer make no Write call. *)
Lemma stream_never_gets_empty_write_witness :
  exists (sys : System (Traced MockReadWriteCloser)) rs,
    run (start (trace mock0) 0 50)
      [EvWrite []; EvWrite (bytes "a"); EvWrite []; EvClose]
      = Some (sys, rs) /\
    calls (rwc (wrapper sys)) = [CallWrite (bytes "a") 1 None; CallClose None]
    /\ forallb nonempty_write (calls (rwc (wrapper sys))) = true.
Proof.
  eassert (E : run (start (trace mock0) 0 50)
                 [EvWrite []; EvWrite (bytes "a"); EvWrite []; EvClose]
               = Some (_, _)) by (vm_compute; reflexivity).
  do 2 eexists. split; [exact E|]. split; [reflexivity|].
  exact (stream_never_gets_empty_write _ _ _ _ E).
Defined.

(** ** What Write and Close return *)

(** X8. A Write on an open wrapper that brings the buffer to the threshold
    or above, the stream answering [(m, e)] within the bound of io.Writer,
    returns the count and the error of the flush: [m] counts bytes of the
    whole buffer, those of earlier writes included, so it can exceed
    [len(data)]; the error is the stream's, or io.ErrShortWrite for a short
    count, or nil. The bytes the stream did not take, those of [data] among
    them, stay buffered although an error is returned. The timer is not
    touched on this path. *)
Theorem threshold_write_returns_flush_result
  {Stream : Type} `{ReadWriteCloser Stream}
  (nw : NagleWrapper Stream) (data : list byte) (s' : Stream) (m : nat)
  (e : option error) :
  closed nw = false ->
  bufferSize nw <= Len (buffer nw ++ data) ->
  buffer nw ++ data <> [] ->
  rwc_Write (rwc nw) (buffer nw ++ data) = (s', (m, e)) ->
  (m <= length (buffer nw ++ data))%nat ->
  exists nw',
    Write nw data =
      Returns nw'
        (Z.of_nat m,
         match e with
         | Some err => Some err
         | None => if (m =? length (buffer nw ++ data))%nat then None
                   else Some ErrShortWrite
         end) /\
    buffer nw' = skipn m (buffer nw ++ data) /\
    rwc nw' = s' /\ closed nw' = false /\ timer nw' = timer nw.
Proof.
  intros C L NE W M.
  rewrite (Write_at_threshold nw data C L).
  set (nw1 := set_buffer nw (buffer nw ++ data)).
  rewrite (flushLocked_nonempty nw1 (s' := s') (m := m) (e := e) NE W).
  cbn [buffer set_buffer nw1].
  destruct (Nat.ltb_spec (length (buffer nw ++ data)) m) as [?|_]; [lia|].
  destruct e as [err|].
  - eexists; split; [reflexivity|]. simpl; auto.
  - destruct (Nat.eqb_spec m (length (buffer nw ++ data))) as [->|_].
    + eexists; split; [reflexivity|]. simpl. rewrite skipn_all; auto.
    + eexists; split; [reflexivity|]. simpl; auto.
Qed.

(** X8 on the mock: "01234" is buffered, then "56789" returns 10, not 5. *)
Lemma threshold_write_returns_flush_result_witness :
  let nw := set_buffer (NewNagleWrapper mock0 10 50) (bytes "01234") in
  exists nw', Write nw (bytes "56789") = Returns nw' (10, None).
Proof.
  intro nw.
  destruct (@threshold_write_returns_flush_result _ _ nw (bytes "56789")
              (mkMock (bytes "0123456789") false) 10%nat None)
    as (nw' & R & _).
  - reflexivity.
  - vm_compute; discriminate.
  - discriminate.
  - reflexivity.
  - vm_compute. repeat constructor.
  - exists nw'. exact R.
Defined.

(** X9. When the flush of Close returns nil but the stream's Close returns
    an error, Close returns that error and the wrapper is closed all the
    same: a second Close returns io.ErrClosedPipe without calling the
    stream, so the stream's Close is not tried again, and Write is refused. *)
Theorem failed_stream_close_still_closes
  {Stream : Type} `{ReadWriteCloser Stream}
  (nw nw1 : NagleWrapper (Traced Stream)) (n : Z) (s2 : Stream)
  (err : error) :
  closed nw = false ->
  flushLocked nw = Returns nw1 (n, None) ->
  rwc_Close (conn (rwc nw1)) = (s2, Some err) ->
  exists nw2,
    Close nw = Returns nw2 (Some err) /\
    closed nw2 = true /\ buffer nw2 = [] /\
    calls (rwc nw2) = calls (rwc nw1) ++ [CallClose (Some err)] /\
    Close nw2 = Returns nw2 (Some ErrClosedPipe) /\
    (forall data, Write nw2 data = Returns nw2 (0, Some ErrClosedPipe)).
Proof.
  intros C F K. eexists. split; [exact (Close_flush_nil nw C F K)|].
  cbn [closed buffer rwc calls set_rwc set_closed].
  rewrite (flushLocked_nil_empties nw F).
  repeat split.
Qed.

(** X9 over the mock closed behind the wrapper's back: with an empty
    buffer the flush has nothing to do, the mock's Close fails, and the
    wrapper is closed nevertheless. *)
Lemma failed_stream_close_still_closes_witness :
  let nw := NewNagleWrapper (trace (mkMock [] true)) 10 50 in
  exists nw2,
    Close nw = Returns nw2 (Some ErrClosedPipe) /\ closed nw2 = true.
Proof.
  intro nw.
  destruct (@failed_stream_close_still_closes _ _ nw nw 0 (mkMock [] true)
              ErrClosedPipe)
    as (nw2 & R & C & _).
  - reflexivity.
  - reflexivity.
  - reflexivity.
  - exists nw2. split; [exact R | exact C].
Defined.

(** X10. Close on an open wrapper with an empty buffer makes no Write on
    the stream: it sets the flag, calls the stream's Close and returns what
    that returns. *)
Theorem close_of_empty_buffer
  {Stream : Type} `{ReadWriteCloser Stream}
  (nw : NagleWrapper (Traced Stream)) (s2 : Stream) (ec : option error) :
  closed nw = false ->
  buffer nw = [] ->
  rwc_Close (conn (rwc nw)) = (s2, ec) ->
  exists nw',
    Close nw = Returns nw' ec /\
    calls (rwc nw') = calls (rwc nw) ++ [CallClose ec] /\
    conn (rwc nw') = s2 /\ closed nw' = true /\ buffer nw' = [].
Proof.
  intros C E K.
  pose proof (flushLocked_empty nw E) as F.
  eexists. split; [exact (Close_flush_nil nw C F K)|].
  cbn [closed buffer rwc calls conn set_rwc set_closed]. auto.
Qed.

Lemma close_of_empty_buffer_witness :
  exists nw',
    Close (NewNagleWrapper (trace mock0) 10 50) = Returns nw' None /\
    calls (rwc nw') = [CallClose None].
Proof.
  destruct (@close_of_empty_buffer _ _ (NewNagleWrapper (trace mock0) 10 50)
              (mkMock [] true) None)
    as (nw' & R & Q & _).
  - reflexivity.
  - reflexivity.
  - reflexivity.
  - exists nw'. split; [exact R | exact Q].
Defined.

(** X11. A Write of no bytes on an open wrapper whose buffer is empty
    returns [(0, nil)] and leaves the stream alone, whatever [bufferSize]
    is: below the threshold it only re-arms the timer, and with
    [bufferSize <= 0] the flush it runs finds nothing to send. *)
Theorem empty_write_on_empty_buffer
  {Stream : Type} `{ReadWriteCloser Stream} (nw : NagleWrapper Stream) :
  closed nw = false ->
  buffer nw = [] ->
  exists nw',
    Write nw [] = Returns nw' (0, None) /\
    rwc nw' = rwc nw /\ buffer nw' = [] /\ closed nw' = false.
Proof.
  intros C E.
  destruct (Z.lt_ge_cases (Len (buffer nw ++ [])) (bufferSize nw)) as [L|L].
  - destruct (Write_below nw [] C L) as (t & _ & W).
    eexists; split; [exact W|]. simpl. rewrite E. auto.
  - rewrite (Write_at_threshold nw [] C L).
    rewrite flushLocked_empty by (simpl; rewrite E; reflexivity).
    eexists; split; [reflexivity|]. simpl. rewrite E. auto.
Qed.

Lemma empty_write_on_empty_buffer_witness :
  exists nw',
    Write (NewNagleWrapper (trace mock0) 0 50) [] = Returns nw' (0, None) /\
    calls (rwc nw') = [].
Proof.
  destruct (@empty_write_on_empty_buffer _ _
              (NewNagleWrapper (trace mock0) 0 50))
    as (nw' & R & Q & _).
  - reflexivity.
  - reflexivity.
  - exists nw'. split; [exact R|]. rewrite Q. reflexivity.
Defined.

(** ** The flush by timeout *)

Lemma handleFlush_turn {Stream : Type} `{ReadWriteCloser Stream}
  (nw : NagleWrapper (Traced Stream)) s1 m e :
  closed nw = false ->
  buffer nw <> [] ->
  rwc_Write (conn (rwc nw)) (buffer nw) = (s1, (m, e)) ->
  (m <= length (buffer nw))%nat ->
  handleFlush_body nw =
    Returns (set_rwc (set_buffer nw (skipn m (buffer nw)))
               (mkTraced s1 (calls (rwc nw) ++ [CallWrite (buffer nw) m e])))
      true.
Proof.
  intros C NE W M. unfold handleFlush_body. rewrite C.
  assert (L : 0 < Len (buffer nw)).
  { pose proof (Len_nonneg (buffer nw)).
    destruct (Z.eq_dec (Len (buffer nw)) 0) as [Z0|]; [|lia].
    apply Len_nil_iff in Z0; contradiction. }
  destruct (Z.ltb_spec 0 (Len (buffer nw))) as [_|?]; [|lia].
  rewrite (flushLocked_traced nw NE W).
  destruct (Nat.ltb_spec (length (buffer nw)) m) as [?|_]; [lia|].
  destruct e as [err|]; [reflexivity|].
  destruct (Nat.eqb_spec m (length (buffer nw))) as [->|_]; [|reflexivity].
  rewrite skipn_all. reflexivity.
Qed.

(** X12. The path by timeout, from a state in which the background task
    is parked: after a Write that stays below the threshold the timer is
    armed, so it can expire; the task then wakes and its turn sends the
    whole buffer, the bytes just written last, in one Write on the stream.
    With the answer [(m, e)] of the stream, the [m] bytes taken leave the
    buffer; the task parks again and the timer is left disarmed. *)
Theorem timeout_flush_sends_buffer
  {Stream : Type} `{ReadWriteCloser Stream}
  (sys : System (Traced Stream)) (data : list byte) (s1 : Stream) (m : nat)
  (e : option error) :
  let nw := wrapper sys in
  task sys = Parked ->
  closed nw = false ->
  Len (buffer nw ++ data) < bufferSize nw ->
  buffer nw ++ data <> [] ->
  rwc_Write (conn (rwc nw)) (buffer nw ++ data) = (s1, (m, e)) ->
  (m <= length (buffer nw ++ data))%nat ->
  exists sys',
    run sys [EvWrite data; EvExpire; EvWake; EvHandleFlush]
      = Some (sys', [RWrite (Len data) None; RNone; RNone; RNone]) /\
    calls (rwc (wrapper sys'))
      = calls (rwc nw) ++ [CallWrite (buffer nw ++ data) m e] /\
    buffer (wrapper sys') = skipn m (buffer nw ++ data) /\
    task sys' = Parked /\
    timer (wrapper sys') = mkTimer None false.
Proof.
  intros nw P C L NE W M.
  destruct (Write_below nw data C L) as (t & A & Wr).
  cbn [run]. unfold step at 1. fold nw. rewrite Wr.
  unfold step at 1. cbn [wrapper task timer set_timer].
  unfold expire. rewrite A.
  unfold step at 1. cbn [wrapper task timer set_timer receive fired]. rewrite P.
  unfold step at 1. cbn [wrapper task].
  match goal with
  | |- context [handleFlush_body ?x] =>
      rewrite (handleFlush_turn x (s1 := s1) (m := m) (e := e) C NE W M)
  end.
  eexists. split; [reflexivity|]. simpl. auto.
Qed.

(** X12 on the timeout scenario of the tests. *)
Lemma timeout_flush_sends_buffer_witness :
  exists sys',
    run (start (trace mock0) 10 50)
      [EvWrite (bytes "01234"); EvExpire; EvWake; EvHandleFlush]
      = Some (sys', [RWrite 5 None; RNone; RNone; RNone]) /\
    calls (rwc (wrapper sys')) = [CallWrite (bytes "01234") 5 None].
Proof.
  destruct (@timeout_flush_sends_buffer _ _ (start (trace mock0) 10 50)
              (bytes "01234") (mkMock (bytes "01234") false) 5%nat None)
    as (sys' & R & Q & _).
  - reflexivity.
  - reflexivity.
  - reflexivity.
  - discriminate.
  - reflexivity.
  - vm_compute. repeat constructor.
  - exists sys'. split; [exact R | exact Q].
Defined.

(** ** Delivery over the mock of the tests *)

Section MockDelivery.

Implicit Types nw : NagleWrapper (Traced MockReadWriteCloser).
Implicit Types sys : System (Traced MockReadWriteCloser).

(** Over an open mock every flush returns nil and leaves the mock open. *)
Lemma mock_flush nw :
  mock_closed (conn (rwc nw)) = false ->
  exists nw' n,
    flushLocked nw = Returns nw' (n, None) /\
    mock_closed (conn (rwc nw')) = false /\ closed nw' = closed nw.
Proof.
  intro O. destruct (buffer nw) as [|y b] eqn:E.
  - rewrite (flushLocked_empty nw E). eauto.
  - assert (NE : buffer nw <> []) by (rewrite E; discriminate).
    assert (W : rwc_Write (conn (rwc nw)) (buffer nw)
                = (mkMock (mock_buffer (conn (rwc nw)) ++ buffer nw) false,
                   (length (buffer nw), None))).
    { simpl. rewrite O. reflexivity. }
    rewrite (flushLocked_traced nw NE W).
    rewrite Nat.ltb_irrefl, Nat.eqb_refl. eauto.
Qed.

Lemma mock_step sys ev sys' r :
  is_close ev = false ->
  closed (wrapper sys) = false ->
  mock_closed (conn (rwc (wrapper sys))) = false ->
  step sys ev = Some (sys', r) ->
  closed (wrapper sys') = false /\
  mock_closed (conn (rwc (wrapper sys'))) = false /\
  write_failed ev r = false /\ r <> RPanic /\
  (forall evs, written (ev :: evs) = accepts sys ev ++ written evs).
Proof.
  intros NC C O St. unfold step in St. destruct ev; try discriminate.
  - (* Write *)
    cbn [accepts written]. rewrite C.
    destruct (Z.lt_ge_cases (Len (buffer (wrapper sys) ++ data))
                (bufferSize (wrapper sys))) as [L|L].
    + destruct (Write_below (wrapper sys) data C L) as (t & _ & W).
      rewrite W in St. inversion St; subst. simpl.
      repeat split; auto; discriminate.
    + rewrite (Write_at_threshold (wrapper sys) data C L) in St.
      destruct (mock_flush
                  (set_buffer (wrapper sys) (buffer (wrapper sys) ++ data)) O)
        as (nw' & n & F & O' & C').
      rewrite F in St. inversion St; subst. simpl in C'. simpl.
      repeat split; auto; try congruence; discriminate.
  - (* Read *)
    unfold Read in St. cbn [rwc_Read Traced_rwc Mock_rwc] in St.
    rewrite O in St.
    destruct (Buffer_Read (mock_buffer (conn (rwc (wrapper sys)))) n)
      as [b [got e]].
    inversion St; subst. simpl. repeat split; auto; discriminate.
  - destruct (expire (timer (wrapper sys))); inversion St; subst.
    simpl. repeat split; auto; discriminate.
  - destruct (task sys); try discriminate.
    destruct (receive (timer (wrapper sys))); inversion St; subst.
    simpl. repeat split; auto; discriminate.
  - destruct (task sys); try discriminate.
    unfold handleFlush_body in St. rewrite C in St.
    destruct (0 <? Len (buffer (wrapper sys))).
    + destruct (mock_flush (wrapper sys) O) as (nw' & n & F & O' & C').
      rewrite F in St. inversion St; subst. simpl.
      repeat split; auto; try congruence; discriminate.
    + inversion St; subst. simpl. repeat split; auto; discriminate.
Qed.

Lemma mock_run sys evs sys' rs :
  forallb (fun ev => negb (is_close ev)) evs = true ->
  closed (wrapper sys) = false ->
  mock_closed (conn (rwc (wrapper sys))) = false ->
  run sys evs = Some (sys', rs) ->
  closed (wrapper sys') = false /\
  mock_closed (conn (rwc (wrapper sys'))) = false /\
  writes_ok evs rs = true /\
  received (calls (rwc (wrapper sys'))) ++ buffer (wrapper sys')
    = received (calls (rwc (wrapper sys))) ++ buffer (wrapper sys)
      ++ written evs.
Proof.
  revert sys rs; induction evs as [|ev evs IH]; intros sys rs NC C O E;
    simpl in E.
  - inversion E; subst. simpl. rewrite app_nil_r. auto.
  - simpl in NC. apply andb_prop in NC as [NC1 NC2].
    apply negb_true_iff in NC1.
    destruct (step sys ev) as [[sys1 r]|] eqn:St; [|discriminate].
    destruct (run sys1 evs) as [[sys2 rs2]|] eqn:E2; [|discriminate].
    inversion E; subst.
    destruct (mock_step sys ev NC1 C O St) as (C1 & O1 & Ok & NP & A).
    destruct (IH sys1 rs2 NC2 C1 O1 E2) as (C2 & O2 & Ok2 & Q).
    repeat split; auto.
    + simpl. rewrite Ok, Ok2. reflexivity.
    + rewrite Q, app_assoc, (step_conserves sys ev St NP), A.
      rewrite <- !app_assoc. reflexivity.
Qed.

End MockDelivery.

(** X13. End to end over the mock of the tests, for every [bufferSize] and
    [flushTimeout]: after any history of writes, reads, timer expiries and
    background flushes on a fresh wrapper, every Write has returned a nil
    error, and a Close then returns nil and leaves the mock having
    received exactly the bytes of all the writes, in the order written,
    with nothing left in the buffer. *)
Theorem mock_receives_everything_written
  (B T : Z) (evs : list event)
  (sys : System (Traced MockReadWriteCloser)) (rs : list response) :
  forallb (fun ev => negb (is_close ev)) evs = true ->
  run (start (trace mock0) B T) evs = Some (sys, rs) ->
  writes_ok evs rs = true /\
  exists nw',
    Close (wrapper sys) = Returns nw' None /\
    received (calls (rwc nw')) = written evs /\
    buffer nw' = [] /\ closed nw' = true.
Proof.
  intros NC E.
  destruct (mock_run (start (trace mock0) B T) evs NC eq_refl eq_refl E)
    as (C & O & Ok & Q).
  split; [exact Ok|]. simpl in Q.
  destruct (mock_flush (wrapper sys) O) as (nw1 & n & F & O1 & C1).
  assert (K : rwc_Close (conn (rwc nw1))
              = (mkMock (mock_buffer (conn (rwc nw1))) true, None)).
  { simpl. rewrite O1. reflexivity. }
  pose proof (Close_flush_nil (wrapper sys) C F K) as R.
  eexists. split; [exact R|].
  pose proof (Close_conserves (wrapper sys) R) as P.
  cbn [buffer set_rwc set_closed closed] in *.
  rewrite (flushLocked_nil_empties (wrapper sys) F) in *.
  rewrite app_nil_r in P. rewrite P, Q. auto.
Qed.

(** X13 on a history mixing the threshold and the timeout. *)
Lemma mock_receives_everything_written_witness :
  exists (sys : System (Traced MockReadWriteCloser)) rs nw',
    run (start (trace mock0) 4 50)
      [EvWrite (bytes "ab"); EvExpire; EvWake; EvHandleFlush;
       EvWrite (bytes "cde"); EvWrite (bytes "fg"); EvWrite (bytes "h")]
      = Some (sys, rs) /\
    Close (wrapper sys) = Returns nw' None /\
    received (calls (rwc nw')) = bytes "abcdefgh".
Proof.
  eassert (E : run (start (trace mock0) 4 50)
                 [EvWrite (bytes "ab"); EvExpire; EvWake; EvHandleFlush;
                  EvWrite (bytes "cde"); EvWrite (bytes "fg");
                  EvWrite (bytes "h")]
               = Some (_, _)) by (vm_compute; reflexivity).
  destruct ((fun NC => @mock_receives_everything_written _ _ _ _ _ NC E)
              eq_refl)
    as (_ & nw' & R & Q & _).
  do 3 eexists. split; [exact E|]. split; [exact R | exact Q].
Defined.

(** ** Coalescing, and what Close guarantees *)

(** X14. A call of Write makes at most one Write on the stream, and only
    on an open wrapper whose buffer, with the new bytes, has reached
    [bufferSize]: what the stream is then given is the whole buffer
    followed by the new bytes, at least [bufferSize] bytes. Whatever the
    stream answers, and also when the call panics. *)
Theorem write_sends_at_least_threshold
  {Stream : Type} `{ReadWriteCloser Stream}
  (nw : NagleWrapper (Traced Stream)) (data : list byte) :
  calls (rwc (final (Write nw data))) = calls (rwc nw) \/
  exists m e,
    calls (rwc (final (Write nw data)))
      = calls (rwc nw) ++ [CallWrite (buffer nw ++ data) m e] /\
    closed nw = false /\
    bufferSize nw <= Len (buffer nw ++ data).
Proof.
  destruct (closed nw) eqn:C.
  - left. rewrite (Write_on_closed nw data C). reflexivity.
  - destruct (Z.lt_ge_cases (Len (buffer nw ++ data)) (bufferSize nw))
      as [L|L].
    + left. destruct (Write_below nw data C L) as (t & _ & ->). reflexivity.
    + rewrite (Write_at_threshold nw data C L).
      destruct (flushLocked_calls (set_buffer nw (buffer nw ++ data)))
        as [Q|(m & e & _ & Q)].
      * left. exact Q.
      * right. exists m, e. auto.
Qed.

Section ClosedDelivery.

Context {Stream : Type} `{ReadWriteCloser Stream}.

Implicit Types sys : System (Traced Stream).

Lemma run_conserves sys evs sys' rs :
  run sys evs = Some (sys', rs) ->
  Forall (fun r => r <> RPanic) rs ->
  received (calls (rwc (wrapper sys'))) ++ buffer (wrapper sys')
    = received (calls (rwc (wrapper sys))) ++ buffer (wrapper sys)
      ++ accepted sys evs.
Proof.
  revert sys rs; induction evs as [|ev evs IH]; intros sys rs E NP;
    simpl in E; simpl.
  - inversion E; subst. rewrite app_nil_r. reflexivity.
  - destruct (step sys ev) as [[sys1 r]|] eqn:St; [|discriminate].
    destruct (run sys1 evs) as [[sys2 rs2]|] eqn:E2; [|discriminate].
    inversion E; subst. inversion NP as [|? ? NP1 NP2]; subst.
    rewrite (IH sys1 rs2 E2 NP2), app_assoc, (step_conserves sys ev St NP1).
    rewrite <- !app_assoc. reflexivity.
Qed.

Lemma run_closed_is_empty sys evs sys' rs :
  run sys evs = Some (sys', rs) ->
  closed_is_empty (wrapper sys) -> closed_is_empty (wrapper sys').
Proof.
  revert sys rs; induction evs as [|ev evs IH]; intros sys rs E I;
    simpl in E.
  - inversion E; subst; exact I.
  - destruct (step sys ev) as [[sys1 r]|] eqn:St; [|discriminate].
    destruct (run sys1 evs) as [[sys2 rs2]|] eqn:E2; [|discriminate].
    inversion E; subst.
    exact (IH sys1 rs2 E2 (step_closed_is_empty sys ev I St)).
Qed.

End ClosedDelivery.

(** X1. Over a stream that keeps the promise of io.Writer on the count of
    its Write, [0 <= n <= len(p)], along any history and from any state:
    the bytes the stream has accepted followed by the bytes still buffered
    are what they were at the start followed by the bytes of every Write
    made on the open wrapper, in the order of the writes. No byte is lost,
    repeated or reordered, also when flushes fail or are partial, and a
    Write that returns an error has still taken its bytes in. (A stream
    that returns a negative count is not covered: bytes.Buffer would offer
    bytes again that it had counted as taken.) *)
Theorem bytes_conserved_within_writer_contract
  {Stream : Type} `{ReadWriteCloser Stream}
  (sys sys' : System (Traced Stream)) (evs : list event)
  (rs : list response) :
  writer_contract Stream ->
  run sys evs = Some (sys', rs) ->
  received (calls (rwc (wrapper sys'))) ++ buffer (wrapper sys')
    = received (calls (rwc (wrapper sys))) ++ buffer (wrapper sys)
      ++ accepted sys evs.
Proof.
  intros K E. apply (run_conserves sys evs E).
  exact (run_no_panic sys evs
           (traced_writer_bound (writer_contract_bound K)) E).
Qed.

(** X1 on a stream that takes one byte of each Write and fails: after
    "abcdef" (threshold 4, the flush fails) and "gh", the stream holds "ab"
    and the buffer the rest. *)
Lemma bytes_conserved_within_writer_contract_witness :
  exists sys : System (Traced Choked),
    run (start (trace (mkChoked [])) 4 50)
      [EvWrite (bytes "abcdef"); EvWrite (bytes "gh")]
      = Some (sys, [RWrite 1 (Some (StreamError 1));
                    RWrite 1 (Some (StreamError 1))]) /\
    received (calls (rwc (wrapper sys))) ++ buffer (wrapper sys)
      = bytes "abcdefgh".
Proof.
  eassert (E : run (start (trace (mkChoked [])) 4 50)
                 [EvWrite (bytes "abcdef"); EvWrite (bytes "gh")]
               = Some (_, _)) by (vm_compute; reflexivity).
  eexists. split; [exact E|].
  rewrite (bytes_conserved_within_writer_contract _ _ Choked_writer_contract
             E).
  reflexivity.
Defined.

(** X15. Over a stream that keeps the promise of io.Writer on the count
    of its Write, [0 <= n <= len(p)], in a history from construction: once
    the closed flag is set, the stream has accepted every byte that the
    Write calls took in, in their order, and nothing else. A wrapper is
    never closed over bytes it still holds, and bytes that a failed flush
    left behind were sent by a later flush before the flag could be set.
    (A stream that returns a negative count is not covered.) *)
Theorem closed_wrapper_has_delivered_within_contract
  {Stream : Type} `{ReadWriteCloser Stream}
  (s : Stream) (B T : Z) (evs : list event)
  (sys' : System (Traced Stream)) (rs : list response) :
  writer_contract Stream ->
  run (start (trace s) B T) evs = Some (sys', rs) ->
  closed (wrapper sys') = true ->
  received (calls (rwc (wrapper sys'))) = accepted (start (trace s) B T) evs.
Proof.
  intros K E C.
  pose proof (run_no_panic _ evs
                (traced_writer_bound (writer_contract_bound K)) E) as NP.
  pose proof (run_conserves _ _ E NP) as Q. simpl in Q.
  assert (I : closed_is_empty (wrapper (start (trace s) B T)))
    by (intro D; discriminate).
  rewrite (run_closed_is_empty _ _ E I C), app_nil_r in Q. exact Q.
Qed.

(** X15 over a stream that takes one byte per Write and reports an error:
    three Close calls get "abc" through, one byte each, and return the
    error; the fourth finds the buffer empty and closes; the stream has
    then received "abc". *)
Lemma closed_wrapper_has_delivered_within_contract_witness :
  exists (sys : System (Traced Choked)) rs,
    run (start (trace (mkChoked [])) 10 50)
      [EvWrite (bytes "abc"); EvClose; EvClose; EvClose; EvClose]
      = Some (sys, rs) /\
    closed (wrapper sys) = true /\
    received (calls (rwc (wrapper sys))) = bytes "abc".
Proof.
  eassert (E : run (start (trace (mkChoked [])) 10 50)
                 [EvWrite (bytes "abc"); EvClose; EvClose; EvClose; EvClose]
               = Some (_, _)) by (vm_compute; reflexivity).
  do 2 eexists. split; [exact E|]. split; [reflexivity|].
  rewrite (closed_wrapper_has_delivered_within_contract _ _ _ _
             Choked_writer_contract E);
    reflexivity.
Defined.

(** ** Buffered bytes are not forgotten *)

Section MockPending.

Implicit Types sys : System (Traced MockReadWriteCloser).

(** Over the open mock: the task is alive, and bytes wait in the buffer
    only while something will bring the task to flush them. *)
Lemma mock_step_pending sys ev sys' r :
  is_close ev = false ->
  closed (wrapper sys) = false ->
  mock_closed (conn (rwc (wrapper sys))) = false ->
  step sys ev = Some (sys', r) ->
  task sys <> Gone ->
  (buffer (wrapper sys) <> [] ->
   armed (timer (wrapper sys)) <> None \/ fired (timer (wrapper sys)) = true
   \/ task sys = Woken) ->
  task sys' <> Gone /\
  (buffer (wrapper sys') <> [] ->
   armed (timer (wrapper sys')) <> None \/ fired (timer (wrapper sys')) = true
   \/ task sys' = Woken).
Proof.
  intros NC C O St G P. unfold step in St. destruct ev; try discriminate.
  - (* Write *)
    destruct (Z.lt_ge_cases (Len (buffer (wrapper sys) ++ data))
                (bufferSize (wrapper sys))) as [L|L].
    + destruct (Write_below (wrapper sys) data C L) as (t & A & W).
      rewrite W in St. inversion St; subst. simpl. split; [exact G|].
      intros _. left. rewrite A. discriminate.
    + rewrite (Write_at_threshold (wrapper sys) data C L) in St.
      destruct (mock_flush
                  (set_buffer (wrapper sys) (buffer (wrapper sys) ++ data)) O)
        as (nw' & n & F & _).
      rewrite F in St. inversion St; subst. simpl. split; [exact G|].
      rewrite (flushLocked_nil_empties _ F). intro N; contradiction.
  - (* Read *)
    unfold Read in St.
    destruct (rwc_Read (rwc (wrapper sys)) n) as [s' [got e]].
    inversion St; subst. simpl. auto.
  - (* the timer expires *)
    destruct (expire (timer (wrapper sys))) as [t|] eqn:X; inversion St; subst.
    simpl. split; [exact G|]. intros _. unfold expire in X.
    destruct (armed (timer (wrapper sys))); inversion X; subst. auto.
  - (* the task wakes *)
    destruct (task sys); try discriminate.
    destruct (receive (timer (wrapper sys))); inversion St; subst.
    simpl. split; [discriminate|]. auto.
  - (* the task takes its turn *)
    destruct (task sys); try discriminate.
    unfold handleFlush_body in St. rewrite C in St.
    destruct (Z.ltb_spec 0 (Len (buffer (wrapper sys)))) as [L|L].
    + destruct (mock_flush (wrapper sys) O) as (nw' & n & F & _).
      rewrite F in St. inversion St; subst. simpl. split; [discriminate|].
      rewrite (flushLocked_nil_empties _ F). intro N; contradiction.
    + inversion St; subst. simpl. split; [discriminate|].
      intro N. exfalso. apply N. apply Len_nil_iff.
      pose proof (Len_nonneg (buffer (wrapper sys))). lia.
Qed.

End MockPending.

(** X16. Over the mock of the tests, in every history of a fresh wrapper
    before its Close: the background task has not returned, and whenever
    bytes wait in the buffer, the timer is armed, or has fired and its
    value waits for the task, or the task is awake and about to take its
    turn. So bytes below the threshold are never left without a flush on
    the way. *)
Theorem buffered_bytes_have_flush_pending
  (B T : Z) (evs : list event)
  (sys : System (Traced MockReadWriteCloser)) (rs : list response) :
  forallb (fun ev => negb (is_close ev)) evs = true ->
  run (start (trace mock0) B T) evs = Some (sys, rs) ->
  task sys <> Gone /\
  (buffer (wrapper sys) <> [] ->
   armed (timer (wrapper sys)) <> None \/ fired (timer (wrapper sys)) = true
   \/ task sys = Woken).
Proof.
  assert (G : forall evs (sys0 : System (Traced MockReadWriteCloser)) rs,
             forallb (fun ev => negb (is_close ev)) evs = true ->
             run sys0 evs = Some (sys, rs) ->
             closed (wrapper sys0) = false ->
             mock_closed (conn (rwc (wrapper sys0))) = false ->
             task sys0 <> Gone ->
             (buffer (wrapper sys0) <> [] ->
              armed (timer (wrapper sys0)) <> None \/
              fired (timer (wrapper sys0)) = true \/ task sys0 = Woken) ->
             task sys <> Gone /\
             (buffer (wrapper sys) <> [] ->
              armed (timer (wrapper sys)) <> None \/
              fired (timer (wrapper sys)) = true \/ task sys = Woken)).
  { clear evs rs. induction evs as [|ev evs IH]; intros sys0 rs NC E C O G P;
      simpl in E.
    - inversion E; subst; auto.
    - simpl in NC. apply andb_prop in NC as [NC1 NC2].
      apply negb_true_iff in NC1.
      destruct (step sys0 ev) as [[sys1 r]|] eqn:St; [|discriminate].
      destruct (run sys1 evs) as [[sys2 rs2]|] eqn:E2; [|discriminate].
      inversion E; subst.
      destruct (mock_step sys0 ev NC1 C O St) as (C1 & O1 & _).
      destruct (mock_step_pending sys0 ev NC1 C O St G P) as (G1 & P1).
      exact (IH sys1 rs2 NC2 E2 C1 O1 G1 P1). }
  intros NC E. apply (G evs _ rs NC E); try reflexivity.
  - discriminate.
  - intro N; exfalso; apply N; reflexivity.
Qed.

Lemma buffered_bytes_have_flush_pending_witness :
  exists (sys : System (Traced MockReadWriteCloser)) rs,
    run (start (trace mock0) 10 50)
      [EvWrite (bytes "01234"); EvExpire; EvWake; EvHandleFlush;
       EvWrite (bytes "567")]
      = Some (sys, rs) /\
    buffer (wrapper sys) = bytes "567" /\
    armed (timer (wrapper sys)) = Some 50.
Proof.
  eassert (E : run (start (trace mock0) 10 50)
                 [EvWrite (bytes "01234"); EvExpire; EvWake; EvHandleFlush;
                  EvWrite (bytes "567")]
               = Some (_, _)) by (vm_compute; reflexivity).
  destruct ((fun NC => @buffered_bytes_have_flush_pending _ _ _ _ _ NC E)
              eq_refl) as [_ P].
  do 2 eexists. split; [exact E|]. split; reflexivity.
Defined.

(** X17. When the background task takes its turn after the timer's only
    arming has been used, and the stream takes fewer bytes than the buffer
    holds, the bytes that stay are stranded: the task parks again, the
    timer is neither armed nor holding a value, so neither the timer nor
    the task can do anything more, and the bytes wait until the caller
    writes again or closes. *)
Theorem failed_background_flush_strands_rest
  {Stream : Type} `{ReadWriteCloser Stream}
  (sys : System (Traced Stream)) (s1 : Stream) (m : nat) (e : option error) :
  let nw := wrapper sys in
  task sys = Woken ->
  closed nw = false ->
  timer nw = mkTimer None false ->
  rwc_Write (conn (rwc nw)) (buffer nw) = (s1, (m, e)) ->
  (m < length (buffer nw))%nat ->
  exists sys',
    step sys EvHandleFlush = Some (sys', RNone) /\
    buffer (wrapper sys') = skipn m (buffer nw) /\
    buffer (wrapper sys') <> [] /\
    closed (wrapper sys') = false /\
    step sys' EvExpire = None /\
    step sys' EvWake = None /\
    step sys' EvHandleFlush = None.
Proof.
  intros nw P C T W M.
  assert (NE : buffer nw <> []).
  { intro E; rewrite E in M; simpl in M; lia. }
  assert (M' : (m <= length (buffer nw))%nat) by lia.
  unfold step at 1. fold nw. rewrite P.
  rewrite (handleFlush_turn nw C NE W M').
  eexists. split; [reflexivity|].
  unfold step. cbn [wrapper task buffer timer set_rwc set_buffer closed].
  rewrite T. cbn [expire receive armed fired].
  repeat split; auto.
  intro E. apply (f_equal (@length byte)) in E.
  rewrite length_skipn in E. simpl in E. lia.
Qed.

(** X17 on a stream that takes one byte and fails: after "abc" and the
    timeout, "bc" is stranded. *)
Lemma failed_background_flush_strands_rest_witness :
  exists (sys sys' : System (Traced Choked)) rs,
    run (start (trace (mkChoked [])) 10 50)
      [EvWrite (bytes "abc"); EvExpire; EvWake] = Some (sys, rs) /\
    step sys EvHandleFlush = Some (sys', RNone) /\
    buffer (wrapper sys') = bytes "bc" /\
    step sys' EvExpire = None.
Proof.
  eassert (E : run (start (trace (mkChoked [])) 10 50)
                 [EvWrite (bytes "abc"); EvExpire; EvWake]
               = Some (_, _)) by (vm_compute; reflexivity).
  match type of E with
  | _ = Some (?s0, _) =>
      destruct (@failed_background_flush_strands_rest _ _ s0
                  (mkChoked (bytes "a")) 1%nat (Some (StreamError 1)))
        as (sys' & St & Bf & _ & _ & X & _)
  end.
  - reflexivity.
  - reflexivity.
  - reflexivity.
  - reflexivity.
  - vm_compute. repeat constructor.
  - do 3 eexists. split; [exact E|]. split; [exact St|].
    split; [exact Bf | exact X].
Defined.
